(** * slate-md-serializer: the Markdown renderer of [src/renderer.js]

    A shallow embedding of the serialization engine (the rule set [RULES],
    the module-level [tableHeader] state, and the methods [serializeNode],
    [serializeLeaves], [serializeString] and [serialize] of class
    [Markdown]) together with theorems about its behaviour.

    Modelling conventions.
    - A JavaScript string is a [string]; its code units are restricted to
      the range of [ascii] (0..255), so the line terminators U+2028/U+2029
      and the wide Unicode spaces do not occur.
    - A JavaScript value that the renderer can meet (what a [data] field
      holds, what a rule returns) is a [value].
    - The [data] mapping of a node is a [gmap string value]; an absent key
      reads as [undefined], as Immutable's [getIn] does.
    - [tableHeader] is a module-level variable: every computation threads
      it explicitly (monad [M]); a [TypeError] aborts the computation and
      leaves the variable as it was when the error was raised.
    - [document.getParent(obj.key)] is modelled by passing the parent down
      the recursion, which is what the lookup returns when keys are unique. *)

From Stdlib Require Import Ascii String List Lia.
From stdpp Require Import base option list strings gmap.

Open Scope string_scope.

(** String concatenation unfolds under [simpl] when its first argument
    starts with a constructor. *)
#[local] Arguments String.append !_ _ / : simpl nomatch.

(** ** JavaScript strings *)

Module JsString.

Definition LF : ascii := "010"%char.
Definition CR : ascii := "013"%char.
Definition nl : string := String LF "".

(** [s.replace(/c/g, r)] for a pattern that is one literal character. *)
Fixpoint replace_char (c : ascii) (r s : string) : string :=
  match s with
  | "" => ""
  | String x s' =>
      (if Ascii.eqb x c then r else String x "") ++ replace_char c r s'
  end.

(** LineTerminator of the regular-expression grammar, within [ascii]. *)
Definition is_line_terminator (c : ascii) : bool :=
  Ascii.eqb c LF || Ascii.eqb c CR.

(** WhiteSpace and LineTerminator ([\s], [trim]), within [ascii]:
    TAB, LF, VT, FF, CR, SP and NBSP. *)
Definition is_space (c : ascii) : bool :=
  Ascii.eqb c "009" || Ascii.eqb c "010" || Ascii.eqb c "011"
  || Ascii.eqb c "012" || Ascii.eqb c "013" || Ascii.eqb c " "
  || Ascii.eqb c "160".

(** [s.replace(/^\s+/g, "")]: without the [m] flag [^] matches at index 0
    only, so exactly the leading run of white space is removed. *)
Fixpoint trim_start (s : string) : string :=
  match s with
  | "" => ""
  | String c s' => if is_space c then trim_start s' else s
  end.

Definition trim_end (s : string) : string :=
  String.rev (trim_start (String.rev s)).

(** [s.trim()] *)
Definition trim (s : string) : string := trim_end (trim_start s).

(** [s.replace(/^/gm, ind)]: with the [m] flag the empty pattern [^]
    matches at index 0 and after every line terminator, the end of the
    string included. [at_start] says whether the current index is such a
    position. *)
Fixpoint insert_at_line_starts (ind : string) (at_start : bool) (s : string)
  : string :=
  match s with
  | "" => if at_start then ind else ""
  | String c s' =>
      (if at_start then ind else "")
      ++ String c (insert_at_line_starts ind (is_line_terminator c) s')
  end.

(** Distance from the head of [s] to the first "]" that is reached
    without crossing a line terminator ([.] does not match one). *)
Fixpoint close_dist (s : string) : option nat :=
  match s with
  | "" => None
  | String c s' =>
      if Ascii.eqb c "]" then Some 0
      else if is_line_terminator c then None
      else option_map S (close_dist s')
  end.

(** [s.replace(/\[(.*?)\]/g, "")]: every leftmost, shortest bracket group
    is deleted. [skip] counts the characters of the current match that
    are still to be dropped. *)
Fixpoint strip_brackets_from (skip : nat) (s : string) : string :=
  match s with
  | "" => ""
  | String c s' =>
      match skip with
      | S k => strip_brackets_from k s'
      | O =>
          if Ascii.eqb c "["
          then match close_dist s' with
               | Some n => strip_brackets_from (S n) s'
               | None => String c (strip_brackets_from 0 s')
               end
          else String c (strip_brackets_from 0 s')
      end
  end.

Definition strip_brackets (s : string) : string := strip_brackets_from 0 s.

Fixpoint repeat_string (n : nat) (s : string) : string :=
  match n with
  | O => ""
  | S k => s ++ repeat_string k s
  end.

Definition is_empty (s : string) : bool :=
  match s with "" => true | _ => false end.

End JsString.
Import JsString.

(** ** The escaping of plain text (rule 0 of [RULES]) *)

(** The chain of six [replace] calls, in the order of the source. *)
Definition escape (children : string) : string :=
  replace_char "%" "\%"
    (replace_char "]" "\]"
       (replace_char "[" "\["
          (replace_char "!" "\!"
             (replace_char "@" "\@"
                (replace_char "\" "\\" children))))).

(** The characters the spec lists: backslash, at, bang, brackets, percent. *)
Definition is_escaped_char (c : ascii) : bool :=
  Ascii.eqb c "\" || Ascii.eqb c "@" || Ascii.eqb c "!"
  || Ascii.eqb c "[" || Ascii.eqb c "]" || Ascii.eqb c "%".

(** The spec's reading of escaping: one pass that prefixes a backslash to
    each listed character and copies every other character. *)
Fixpoint escape_spec (s : string) : string :=
  match s with
  | "" => ""
  | String c s' =>
      if is_escaped_char c then String "\" (String c (escape_spec s'))
      else String c (escape_spec s')
  end.

(** Markdown unescaping restricted to the listed characters: one backslash
    in front of a listed character is removed. *)
Fixpoint unescape (s : string) : string :=
  match s with
  | "" => ""
  | String c s' =>
      if Ascii.eqb c "\"
      then match s' with
           | String d s'' =>
               if is_escaped_char d then String d (unescape s'')
               else String c (unescape s')
           | "" => String c ""
           end
      else String c (unescape s')
  end.

(** ** JavaScript values *)

Inductive value : Type :=
| VUndef
| VNull
| VBool (b : bool)
| VStr (s : string).

(** What a template literal [`${v}`] and [v.toString()] produce. *)
Definition to_string (v : value) : string :=
  match v with
  | VUndef => "undefined"
  | VNull => "null"
  | VBool true => "true"
  | VBool false => "false"
  | VStr s => s
  end.

(** ToBoolean: what [if (v)], [v ? a : b], [v || w] and [v && w] test. *)
Definition truthy (v : value) : bool :=
  match v with
  | VUndef | VNull => false
  | VBool b => b
  | VStr s => negb (is_empty s)
  end.

Definition js_or (v w : value) : value := if truthy v then v else w.
Definition js_and (v w : value) : value := if truthy v then w else v.

(** [v === "lit"] *)
Definition is_string (v : value) (lit : string) : bool :=
  match v with
  | VStr s => String.eqb s lit
  | _ => false
  end.

(** A [switch (v) { case "k": ...; default: ... }] whose cases all return
    or break: the first case label strictly equal to [v] is taken. *)
Fixpoint switch {A : Type} (v : value) (cases : list (string * A)) (default : A)
  : A :=
  match cases with
  | [] => default
  | (label, body) :: rest =>
      if is_string v label then body else switch v rest default
  end.

(** An element of an Immutable [List] as [join] appends it. *)
Definition join_item (v : value) : string :=
  match v with
  | VUndef | VNull => ""
  | _ => to_string v
  end.

(** ** The computation monad: [tableHeader] and [TypeError] *)

Inductive error : Type := TypeError.

Inductive outcome (A : Type) : Type :=
| Returned (a : A)
| Thrown (e : error).
Arguments Returned {A} a.
Arguments Thrown {A} e.

(** A computation reads the current [tableHeader] and yields an outcome
    and the new [tableHeader]. *)
Definition M (A : Type) : Type := string -> outcome A * string.

Definition ret {A : Type} (a : A) : M A := fun h => (Returned a, h).

Definition bind {A B : Type} (c : M A) (k : A -> M B) : M B :=
  fun h =>
    match c h with
    | (Returned a, h') => k a h'
    | (Thrown e, h') => (Thrown e, h')
    end.

Definition throw {A : Type} (e : error) : M A := fun h => (Thrown e, h).
Definition get_tableHeader : M string := fun h => (Returned h, h).
Definition set_tableHeader (h' : string) : M unit := fun _ => (Returned tt, h').

Notation "x <- c ;; k" := (bind c (fun x => k))
  (at level 100, c at next level, right associativity).
Notation "c ;;; k" := (bind c (fun _ => k))
  (at level 100, right associativity).

(** [l.map(f)] with an effectful callback, run from left to right. *)
Definition mapM {A B : Type} (f : A -> M B) : list A -> M (list B) :=
  fix go (l : list A) : M (list B) :=
    match l with
    | [] => ret []
    | a :: l' => b <- f a ;; bs <- go l' ;; ret (b :: bs)
    end.

(** [l.reduce(f, init)] with an effectful callback. *)
Fixpoint reduceM {A B : Type} (f : B -> A -> M B) (l : list A) (init : B)
  : M B :=
  match l with
  | [] => ret init
  | a :: l' => acc <- f init a ;; reduceM f l' acc
  end.

(** The receiver of a string method ([replace], [trim]): anything but a
    string has no such method, and the call raises [TypeError]. *)
Definition as_string (v : value) : M string :=
  match v with
  | VStr s => ret s
  | _ => throw TypeError
  end.

(** What a computation yields, apart from the [tableHeader] it leaves. *)
Definition output {A : Type} (r : outcome A * string) : outcome A := fst r.

(** ** The document tree *)

Record Mark : Type := { mark_type : string }.

Record Leaf : Type := { text : string; marks : list Mark }.

#[warnings="-register-all"]
Inductive Node : Type :=
| Text (leaves : list Leaf)
| Block (type : string) (data : gmap string value) (nodes : list Node)
| Inline (type : string) (data : gmap string value) (nodes : list Node).

(** What [document.getParent(key)] returns: the document itself or a node,
    of which the rules read the [type] only. *)
Inductive Parent : Type :=
| ParentDocument
| ParentNode (type : string).

(** [parent.type]; a Document has no such field. *)
Definition parent_type (p : Parent) : value :=
  match p with
  | ParentDocument => VUndef
  | ParentNode ty => VStr ty
  end.

(** [parent === document] *)
Definition is_document (p : Parent) : bool :=
  match p with
  | ParentDocument => true
  | ParentNode _ => false
  end.

(** The first argument of a rule: the [String] record of the source, a
    node, or a mark. *)
Inductive Obj : Type :=
| StringObj (text : string)
| NodeObj (node : Node)
| MarkObj (mark : Mark).

Definition kind (obj : Obj) : string :=
  match obj with
  | StringObj _ => "string"
  | NodeObj (Text _) => "text"
  | NodeObj (Block _ _ _) => "block"
  | NodeObj (Inline _ _ _) => "inline"
  | MarkObj _ => "mark"
  end.

Definition obj_type (obj : Obj) : value :=
  match obj with
  | StringObj _ => VUndef
  | NodeObj (Text _) => VUndef
  | NodeObj (Block ty _ _) => VStr ty
  | NodeObj (Inline ty _ _) => VStr ty
  | MarkObj m => VStr (mark_type m)
  end.

(** [obj.getIn(["data", key])] *)
Definition getIn_data (obj : Obj) (key : string) : value :=
  match obj with
  | NodeObj (Block _ data _) | NodeObj (Inline _ data _) =>
      default VUndef (data !! key)
  | _ => VUndef
  end.

(** [document.getParent(obj.key)]: the third argument of a rule is absent
    when the rule is called on a mark or a string. *)
Definition getParent (document : option Parent) : M Parent :=
  match document with
  | Some p => ret p
  | None => throw TypeError
  end.

Definition serializer : Type := Obj -> value -> option Parent -> M value.

Record Rule : Type := { serialize_fn : option serializer }.

(** Result of [serializeNode]: a List of rendered leaves for a text node,
    one value (a string or [undefined]) for any other node. *)
Inductive rendered : Type :=
| Leaves (l : list value)
| Single (v : value).

(** One level of [flatten()]: deeper nesting does not arise. *)
Definition flatten (rs : list rendered) : list value :=
  List.concat
    (List.map (fun r => match r with Leaves l => l | Single v => [v] end) rs).

(** [list.join(sep)] for a List of values. *)
Fixpoint join (sep : string) (l : list string) : string :=
  match l with
  | [] => ""
  | [s] => s
  | s :: l' => s ++ sep ++ join sep l'
  end.

(** [children.flatten().join("")]: the text a node's rule receives as
    [children]. The source tests [children.flatten().length === 0] first
    and takes the empty string in that case; the join of an empty List is
    the empty string as well, so both branches are this text. *)
Definition children_text (rs : list rendered) : string :=
  join "" (List.map join_item (flatten rs)).

(** ** The renderer *)

Section Renderer.

(** [encode] of [./urls], which is not part of the renderer: the URL
    encoder applied to [src], [href], [image] and [url]. It receives
    whatever [field || ""] evaluates to and returns a string. *)
Variable encode : value -> string.

(** [toString()] of an Immutable [List], which [join] calls when an
    element of the joined List is itself a List. *)
Variable List_toString : list value -> string.

Definition formatLinkBar (img url : string) (title desc domain : value)
  : M string :=
  d <- as_string desc ;;
  ret ("%%%" ++ nl
       ++ (if truthy (VStr img) then url ++ nl ++ img else url) ++ nl
       ++ to_string title ++ nl
       ++ strip_brackets d ++ nl
       ++ to_string domain ++ nl
       ++ "%%%" ++ nl).

Definition formatSoftBreak (children : value) : M string :=
  c <- as_string children ;;
  ret (replace_char LF ("  " ++ nl) c).

(** [children.replace(/^/gm, "   ")] *)
Definition indent_lines (children : value) : M string :=
  c <- as_string children ;;
  ret (insert_at_line_starts "   " true c).

(** The marker a [table-head] cell appends to [tableHeader]. *)
Definition align_marker (align : value) : string :=
  switch align
    [ ("left", "|:--- ");
      ("center", "|:---:");
      ("right", "| ---:") ]
    "| --- ".

(** [RULES[0]]: plain strings. *)
Definition rule_string : serializer := fun obj children _ =>
  if String.eqb (kind obj) "string"
  then ret (VStr (escape (to_string children)))
  else ret VUndef.

Definition list_block (parent : Parent) (children : value) : M value :=
  if is_document parent
  then ret (VStr (nl ++ to_string children))
  else c <- indent_lines children ;; ret (VStr (nl ++ c)).

Definition heading (level : nat) (children : value) : M value :=
  ret (VStr (repeat_string level "#" ++ " " ++ to_string children)).

(** [RULES[1]]: blocks. *)
Definition rule_block : serializer := fun obj children document =>
  if negb (String.eqb (kind obj) "block") then ret VUndef
  else
    parent <- getParent document ;;
    switch (obj_type obj)
      [ ("table",
          set_tableHeader "" ;;; ret children);
        ("table-head",
          h <- get_tableHeader ;;
          set_tableHeader (h ++ align_marker (getIn_data obj "align")) ;;;
          ret (VStr ("| " ++ to_string children ++ " ")));
        ("table-row",
          h <- get_tableHeader ;;
          out <- (if truthy (VStr h)
                  then set_tableHeader "" ;;; ret (h ++ "|" ++ nl)
                  else ret "") ;;
          ret (VStr (to_string children ++ "|" ++ nl ++ out)));
        ("table-cell",
          ret (VStr ("| " ++ to_string children ++ " ")));
        ("paragraph",
          if is_string (parent_type parent) "list-item"
          then c <- formatSoftBreak children ;; ret (VStr c)
          else c <- formatSoftBreak children ;; ret (VStr (nl ++ c ++ nl)));
        ("code",
          ret (VStr ("```" ++ nl ++ to_string children ++ nl ++ "```" ++ nl)));
        ("block-quote",
          ret (VStr ("> " ++ to_string children ++ nl)));
        ("todo-list", list_block parent children);
        ("bulleted-list", list_block parent children);
        ("ordered-list", list_block parent children);
        ("list-item",
          switch (parent_type parent)
            [ ("ordered-list",
                c <- formatSoftBreak children ;;
                ret (VStr ("1. " ++ c ++ nl)));
              ("todo-list",
                let checked := getIn_data obj "checked" in
                let box := if truthy checked then "[x]" else "[ ]" in
                c <- formatSoftBreak children ;;
                ret (VStr (box ++ " " ++ c ++ nl))) ]
            (c <- formatSoftBreak children ;;
             ret (VStr ("* " ++ c ++ nl))));
        ("heading1",
          c <- formatSoftBreak children ;; ret (VStr ("# " ++ c)));
        ("heading2", heading 2 children);
        ("heading3", heading 3 children);
        ("heading4", heading 4 children);
        ("heading5", heading 5 children);
        ("heading6", heading 6 children);
        ("horizontal-rule",
          ret (VStr ("---" ++ nl)));
        ("image",
          let alt := getIn_data obj "alt" in
          let src := encode (js_or (getIn_data obj "src") (VStr "")) in
          ret (VStr ("![" ++ to_string alt ++ "](" ++ src ++ ")" ++ nl)));
        ("linkbar",
          let img := encode (js_or (getIn_data obj "image") (VStr "")) in
          let url := encode (js_or (getIn_data obj "url") (VStr "")) in
          let title := getIn_data obj "title" in
          let desc := getIn_data obj "description" in
          let domain := getIn_data obj "domain" in
          s <- formatLinkBar img url title desc domain ;; ret (VStr s)) ]
      (ret VUndef).

(** [RULES[2]]: inlines. *)
Definition rule_inline : serializer := fun obj children _ =>
  if negb (String.eqb (kind obj) "inline") then ret VUndef
  else
    switch (obj_type obj)
      [ ("link",
          let href := encode (js_or (getIn_data obj "href") (VStr "")) in
          c <- as_string children ;;
          ret (VStr ("[" ++ trim c ++ "](" ++ href ++ ")")));
        ("code-line",
          ret (VStr ("`" ++ to_string children ++ "`")));
        ("mention",
          let username := js_or (getIn_data obj "username") (VStr "") in
          let anon := js_or (getIn_data obj "anonymous") (VStr "") in
          ret (js_and username
                 (VStr ((if truthy anon then "!" else "@")
                        ++ to_string username ++ " ")))) ]
      (ret VUndef).

(** [RULES[3]]: marks. *)
Definition rule_mark : serializer := fun obj children _ =>
  if negb (String.eqb (kind obj) "mark") then ret VUndef
  else
    switch (obj_type obj)
      [ ("bold", ret (VStr ("**" ++ to_string children ++ "**")));
        ("italic", ret (VStr ("*" ++ to_string children ++ "*")));
        ("code", ret (VStr ("`" ++ to_string children ++ "`")));
        ("inserted", ret (VStr ("__" ++ to_string children ++ "__")));
        ("deleted", ret (VStr ("~~" ++ to_string children ++ "~~"))) ]
      (ret VUndef).

Definition RULES : list Rule :=
  [ {| serialize_fn := Some rule_string |};
    {| serialize_fn := Some rule_block |};
    {| serialize_fn := Some rule_inline |};
    {| serialize_fn := Some rule_mark |} ].

(** The class [Markdown]: an instance holds its list of rules. *)
Record Markdown : Type := { rules : list Rule }.

(** [constructor(options)]: the caller's rules come before [RULES]. *)
Definition new_Markdown (options_rules : list Rule) : Markdown :=
  {| rules := options_rules ++ RULES |}.

(** The loop [for (const rule of this.rules)] that the three methods
    share: the first truthy result is returned; when the loop ends the
    method returns [undefined]. *)
Fixpoint first_match (rs : list Rule) (obj : Obj) (children : value)
  (document : option Parent) : M value :=
  match rs with
  | [] => ret VUndef
  | rule :: rs' =>
      match serialize_fn rule with
      | None => first_match rs' obj children document
      | Some f =>
          r <- f obj children document ;;
          if truthy r then ret r
          else first_match rs' obj children document
      end
  end.

Section Methods.

Variable this : Markdown.

Definition serializeString (string_text : string) : M value :=
  first_match (rules this) (StringObj string_text) (VStr string_text) None.

Definition serializeLeaves (leaves : Leaf) : M value :=
  t <- serializeString (text leaves) ;;
  reduceM
    (fun children mark =>
       first_match (rules this) (MarkObj mark) children None)
    (marks leaves) t.

Fixpoint serializeNode (node : Node) (parent : Parent) : M rendered :=
  match node with
  | Text leaves =>
      l <- mapM serializeLeaves leaves ;; ret (Leaves l)
  | Block ty _ ns | Inline ty _ ns =>
      rs <- mapM (fun n => serializeNode n (ParentNode ty)) ns ;;
      r <- first_match (rules this) (NodeObj node) (VStr (children_text rs))
             (Some parent) ;;
      ret (Single r)
  end.

(** An element of the top-level List as [elements.join] appends it. *)
Definition element_string (r : rendered) : string :=
  match r with
  | Single v => join_item v
  | Leaves l => List_toString l
  end.

(** [serialize(state)], given [state.document.nodes]. *)
Definition serialize (document_nodes : list Node) : M string :=
  elements <- mapM (fun node => serializeNode node ParentDocument)
                document_nodes ;;
  let output := join nl (List.map element_string elements) in
  ret (trim_start output).

End Methods.

End Renderer.

(** The serializer built with no options: its rules are [RULES]. *)
Definition default_Markdown (encode : value -> string) : Markdown :=
  new_Markdown encode [].

(** A heading block type, ["heading1"] .. ["heading6"]. *)
Definition heading_type (level : nat) : string :=
  "heading" ++ String (ascii_of_nat (48 + level)) "".

(** ** Specification-side definitions *)

(** The marker of a list item as the spec words it: chosen by the parent's
    type, the check box by the item's own [checked] field. *)
Definition list_item_marker (parent : Parent) (checked : value) : string :=
  if is_string (parent_type parent) "ordered-list" then "1. "
  else if is_string (parent_type parent) "todo-list"
       then (if truthy checked then "[x] " else "[ ] ")
       else "* ".

(** The pieces of a text between the occurrences of [c]; a text without
    [c] is one piece, and a text that ends with [c] has an empty last
    piece. *)
Fixpoint split_on (c : ascii) (s : string) : list string :=
  match s with
  | "" => [""]
  | String x s' =>
      if Ascii.eqb x c then "" :: split_on c s'
      else match split_on c s' with
           | piece :: pieces => String x piece :: pieces
           | [] => [String x ""]
           end
  end.

(** Soft-break formatting as the spec words it: every newline is replaced
    by two spaces and a newline, that is, the text is cut at its newlines
    and the pieces are joined again with two spaces and a newline. *)
Definition soft_break_by_lines (s : string) : string :=
  join ("  " ++ nl) (split_on LF s).

(** The lines of a text: each line ends with its line terminator, and the
    text after the last terminator (possibly empty) is the last line. *)
Fixpoint lines (s : string) : list string :=
  match s with
  | "" => [""]
  | String c s' =>
      if is_line_terminator c then String c "" :: lines s'
      else match lines s' with
           | l :: ls => String c l :: ls
           | [] => [String c ""]
           end
  end.

(** Three spaces in front of every line. *)
Definition indent_every_line (s : string) : string :=
  List.fold_right String.append "" (List.map (fun l => "   " ++ l) (lines s)).

Fixpoint leading_newlines (s : string) : nat :=
  match s with
  | String c s' => if Ascii.eqb c LF then S (leading_newlines s') else 0
  | "" => 0
  end.

(** Number of newline characters the text ends with. *)
Definition trailing_newlines (s : string) : nat :=
  leading_newlines (String.rev s).

Definition ends_with_exactly_one_newline (s : string) : Prop :=
  trailing_newlines s = 1.

(** Every character of the text is white space. *)
Fixpoint all_space (s : string) : bool :=
  match s with
  | "" => true
  | String c s' => is_space c && all_space s'
  end.

(** The text does not begin with white space. *)
Definition starts_without_space (s : string) : bool :=
  match s with
  | "" => true
  | String c _ => negb (is_space c)
  end.

(** The rendered table does not depend on the [tableHeader] it starts
    from: what a reset at table entry would give. *)
Definition table_reset_at_entry (md : Markdown) : Prop :=
  forall data ns parent h,
    output (serializeNode md (Block "table" data ns) parent h)
    = output (serializeNode md (Block "table" data ns) parent "").

(** ** Pure readings of the text methods under [RULES]

    With the built-in rules only, rendering a string, a mark or a leaf
    neither raises nor touches [tableHeader]; these are the values the
    methods return (lemmas [serializeString_default],
    [first_match_mark_default] and [serializeLeaves_default]). *)

(** [serializeString]: an empty text is escaped to the empty string, which
    is falsy, so no rule matches and the method returns [undefined]. *)
Definition string_value (t : string) : value :=
  if is_empty t then VUndef else VStr (escape t).

(** The callback of [reduce] in [serializeLeaves]. *)
Definition mark_value (children : value) (m : Mark) : value :=
  switch (VStr (mark_type m))
    [ ("bold", VStr ("**" ++ to_string children ++ "**"));
      ("italic", VStr ("*" ++ to_string children ++ "*"));
      ("code", VStr ("`" ++ to_string children ++ "`"));
      ("inserted", VStr ("__" ++ to_string children ++ "__"));
      ("deleted", VStr ("~~" ++ to_string children ++ "~~")) ]
    VUndef.

Definition leaf_value (l : Leaf) : value :=
  List.fold_left mark_value (marks l) (string_value (text l)).

(** A table-head cell that holds one text node. *)
Definition text_head_cell (c : gmap string value * list Leaf) : Node :=
  Block "table-head" (fst c) [Text (snd c)].

Definition text_head_cell_rendered (c : gmap string value * list Leaf)
  : rendered :=
  Single (VStr ("| "
                ++ children_text [Leaves (List.map leaf_value (snd c))]
                ++ " ")).

Definition text_head_cell_marker (c : gmap string value * list Leaf) : string :=
  align_marker (default VUndef (fst c !! "align")).

(** ** Sample documents *)

Module Sample.

(** An encoder for the closed examples: it copies its argument. *)
Definition encode (v : value) : string := to_string v.

(** A stand-in for Immutable's [toString] of a List; the closed examples
    have no text node at the top level and never call it. *)
Definition List_toString (l : list value) : string :=
  "List [ " ++ join ", " (List.map to_string l) ++ " ]".

Definition md : Markdown := default_Markdown encode.

Definition plain (s : string) : Node :=
  Text [ {| text := s; marks := [] |} ].

Definition bold : Mark := {| mark_type := "bold" |}.
Definition italic : Mark := {| mark_type := "italic" |}.
Definition underline : Mark := {| mark_type := "underline" |}.

Definition head_cell (align s : string) : Node :=
  Block "table-head" {[ "align" := VStr align ]} [plain s].

Definition cell (s : string) : Node :=
  Block "table-cell" ∅ [plain s].

(** One head row of two cells aligned left and right, one data row. *)
Definition table_2x2 : Node :=
  Block "table" ∅
    [ Block "table-row" ∅ [head_cell "left" "col1"; head_cell "right" "col2"];
      Block "table-row" ∅ [cell "a"; cell "b"] ].

(** A table whose second head cell holds another table. *)
Definition nested_table : Node :=
  Block "table" ∅
    [ Block "table-row" ∅
        [ head_cell "left" "A";
          Block "table-head" {[ "align" := VStr "right" ]}
            [ Block "table" ∅ [ Block "table-row" ∅ [cell "c"] ] ] ] ].

Definition hello : list Node := [ Block "paragraph" ∅ [plain "hello"] ].

Definition two_lines : string := "a" ++ nl ++ "b".

(** A list item holding a block quote. *)
Definition quote_item : Node :=
  Block "list-item" ∅ [ Block "block-quote" ∅ [plain "q"] ].

Definition empty_bold_leaf : Leaf := {| text := ""; marks := [bold] |}.

Definition unknown_then_bold_leaf : Leaf :=
  {| text := "a"; marks := [underline; bold] |}.

End Sample.

(** ** Definitions for the properties of the whole rule set *)

(** A computation that returns, whatever [tableHeader] it starts from. *)
Definition returns {A : Type} (c : M A) : Prop :=
  forall h, exists a h', c h = (Returned a, h').

(** A computation that ends, returning or raising, with the [tableHeader]
    it started from. *)
Definition keeps_tableHeader {A : Type} (c : M A) : Prop :=
  forall h, snd (c h) = h.

(** The concatenated raw text of the leaves of a text node. *)
Definition leaves_text (ls : list Leaf) : string :=
  List.fold_right String.append "" (List.map text ls).

(** The delimiter the mark rule puts on both sides of [children], for the
    five mark types it knows. *)
Definition mark_delimiter (m : Mark) : option string :=
  switch (VStr (mark_type m))
    [ ("bold", Some "**");
      ("italic", Some "*");
      ("code", Some "`");
      ("inserted", Some "__");
      ("deleted", Some "~~") ]
    None.

(** The delimiters in front of the text of a leaf: the last mark first. *)
Definition opening_delimiters (ms : list Mark) : string :=
  List.fold_left (fun acc m => default "" (mark_delimiter m) ++ acc) ms "".

(** The delimiters behind the text of a leaf: the first mark first. *)
Definition closing_delimiters (ms : list Mark) : string :=
  List.fold_left (fun acc m => acc ++ default "" (mark_delimiter m)) ms "".

(** What the rules hand to the encoder for the field [key], namely
    [field || ""], is a string: the field is absent, falsy or a string. *)
Definition encoder_gets_string (data : gmap string value) (key : string)
  : bool :=
  match js_or (default VUndef (data !! key)) (VStr "") with
  | VStr _ => true
  | _ => false
  end.

(** The fields of one node that its rule hands to the encoder ([src] of an
    image, [image] and [url] of a linkbar, [href] of a link) are absent,
    falsy or strings. *)
Definition encoded_fields_are_strings_here (n : Node) : bool :=
  match n with
  | Text _ => true
  | Block ty data _ =>
      (negb (String.eqb ty "image") || encoder_gets_string data "src")
      && (negb (String.eqb ty "linkbar")
          || (encoder_gets_string data "image"
              && encoder_gets_string data "url"))
  | Inline ty data _ =>
      negb (String.eqb ty "link") || encoder_gets_string data "href"
  end.

(** The same for every node of the tree. *)
Fixpoint encoded_fields_are_strings (n : Node) : bool :=
  encoded_fields_are_strings_here n
  && match n with
     | Text _ => true
     | Block _ _ ns | Inline _ _ ns => forallb encoded_fields_are_strings ns
     end.

(** The block types whose rule reads or writes [tableHeader]. *)
Definition is_table_family (ty : string) : bool :=
  String.eqb ty "table" || String.eqb ty "table-head"
  || String.eqb ty "table-row".

(** No block of the tree is a table, a table-head or a table-row. *)
Fixpoint no_table_family (n : Node) : bool :=
  match n with
  | Text _ => true
  | Block ty _ ns => negb (is_table_family ty) && forallb no_table_family ns
  | Inline _ _ ns => forallb no_table_family ns
  end.

(** The [description] field holds a string. *)
Definition has_string_description (data : gmap string value) : bool :=
  match data !! "description" with
  | Some (VStr _) => true
  | _ => false
  end.

(** Every linkbar block of the tree has a string [description]. *)
Fixpoint linkbars_described (n : Node) : bool :=
  match n with
  | Text _ => true
  | Block ty data ns =>
      (negb (String.eqb ty "linkbar") || has_string_description data)
      && forallb linkbars_described ns
  | Inline _ _ ns => forallb linkbars_described ns
  end.

(** Every character of the text satisfies [p]. *)
Fixpoint all_chars (p : ascii -> bool) (s : string) : bool :=
  match s with
  | "" => true
  | String c s' => p c && all_chars p s'
  end.

Definition not_open_bracket (c : ascii) : bool := negb (Ascii.eqb c "[").
Definition not_close_bracket (c : ascii) : bool := negb (Ascii.eqb c "]").

(** A character a bracket group may hold: [.] matches it and it does not
    end the group. *)
Definition inside_bracket_group (c : ascii) : bool :=
  not_close_bracket c && negb (is_line_terminator c).

(** The case labels of the block rule. *)
Definition block_types : list string :=
  [ "table"; "table-head"; "table-row"; "table-cell"; "paragraph"; "code";
    "block-quote"; "todo-list"; "bulleted-list"; "ordered-list"; "list-item";
    "heading1"; "heading2"; "heading3"; "heading4"; "heading5"; "heading6";
    "horizontal-rule"; "image"; "linkbar" ].

(** The case labels of the inline rule. *)
Definition inline_types : list string := [ "link"; "code-line"; "mention" ].

(** [ty] is none of the labels. *)
Definition not_among (ty : string) (labels : list string) : bool :=
  forallb (fun label => negb (String.eqb ty label)) labels.

(** A table-cell block that holds one text node. *)
Definition text_cell (c : gmap string value * list Leaf) : Node :=
  Block "table-cell" (fst c) [Text (snd c)].

(** What a table-head or table-cell block holding one text node renders. *)
Definition cell_text (c : gmap string value * list Leaf) : string :=
  "| " ++ children_text [Leaves (List.map leaf_value (snd c))] ++ " ".

Definition row_text (cs : list (gmap string value * list Leaf)) : string :=
  List.fold_right String.append "" (List.map cell_text cs).

(** The alignment markers of a row of table-head cells, in cell order. *)
Definition header_markers (cs : list (gmap string value * list Leaf)) : string :=
  List.fold_right String.append "" (List.map text_head_cell_marker cs).

(** A table-row block of table-cell blocks that hold text. *)
Definition data_row
  (r : gmap string value * list (gmap string value * list Leaf)) : Node :=
  Block "table-row" (fst r) (List.map text_cell (snd r)).

(** A table: one row of table-head cells, then rows of table-cells. *)
Definition text_table (data head_data : gmap string value)
  (heads : list (gmap string value * list Leaf))
  (rows : list (gmap string value * list (gmap string value * list Leaf)))
  : Node :=
  Block "table" data
    (Block "table-row" head_data (List.map text_head_cell heads)
     :: List.map data_row rows).

(** The lines of the data rows of a table. *)
Definition data_rows_text
  (rows : list (gmap string value * list (gmap string value * list Leaf)))
  : string :=
  List.fold_right String.append ""
    (List.map (fun r => row_text (snd r) ++ "|" ++ nl) rows).

(** ** More sample documents *)

Module MoreSamples.

Definition leaf (s : string) : Leaf := {| text := s; marks := [] |}.

Definition code_mark : Mark := {| mark_type := "code" |}.

(** A rule object that has no [serialize] function. *)
Definition deserialize_only : Rule := {| serialize_fn := None |}.

Definition paragraph (s : string) : Node :=
  Block "paragraph" ∅ [Sample.plain s].

(** A linkbar block that has no data at all. *)
Definition bare_linkbar : Node := Block "linkbar" ∅ [].

Definition described_linkbar : Node :=
  Block "linkbar"
    {[ "url" := VStr "u"; "title" := VStr "t"; "domain" := VStr "d";
       "description" := VStr "see [x] end" ]} [].

Definition bullet_list : Node :=
  Block "bulleted-list" ∅ [ Block "list-item" ∅ [paragraph "a"] ].

Definition left_head : gmap string value * list Leaf :=
  ({[ "align" := VStr "left" ]}, [leaf "col1"]).

Definition right_head : gmap string value * list Leaf :=
  ({[ "align" := VStr "right" ]}, [leaf "col2"]).

Definition one_data_row
  : gmap string value * list (gmap string value * list Leaf) :=
  (∅, [ (∅, [leaf "a"]); (∅, [leaf "b"]) ]).

End MoreSamples.

(** * Properties *)

(** ** Strings *)

Lemma append_nil_r (s : string) : s ++ "" = s.
Proof. induction s as [|c s IH]; simpl; [reflexivity | now rewrite IH]. Qed.

Lemma append_assoc (s t u : string) : (s ++ t) ++ u = s ++ (t ++ u).
Proof. induction s as [|c s IH]; simpl; [reflexivity | now rewrite IH]. Qed.

Lemma replace_char_app (c : ascii) (r s t : string) :
  replace_char c r (s ++ t) = replace_char c r s ++ replace_char c r t.
Proof.
  induction s as [|x s IH]; simpl; [reflexivity |].
  now rewrite IH, append_assoc.
Qed.

Lemma split_on_nonempty (c : ascii) (s : string) : split_on c s <> [].
Proof.
  destruct s as [|x s]; [discriminate |].
  cbn [split_on]. destruct (Ascii.eqb x c); [discriminate |].
  destruct (split_on c s); discriminate.
Qed.

(** Replacing every [c] by [r] is cutting at [c] and joining with [r]. *)
Lemma replace_char_join_split (c : ascii) (r s : string) :
  replace_char c r s = join r (split_on c s).
Proof.
  induction s as [|x s IH]; [reflexivity |].
  cbn [replace_char split_on]. rewrite IH.
  destruct (Ascii.eqb x c).
  - destruct (split_on c s) as [|piece pieces] eqn:Hs;
      [now destruct (split_on_nonempty c s) | reflexivity].
  - destruct (split_on c s) as [|piece pieces] eqn:Hs;
      [now destruct (split_on_nonempty c s) |].
    destruct pieces; reflexivity.
Qed.

Lemma soft_break_refines_spec (s : string) :
  replace_char LF ("  " ++ nl) s = soft_break_by_lines s.
Proof. apply replace_char_join_split. Qed.

Lemma is_empty_app_l (s t : string) :
  is_empty s = false -> is_empty (s ++ t) = false.
Proof. destruct s; simpl; [discriminate | reflexivity]. Qed.

(** ** Escaping *)

Lemma escape_app (s t : string) : escape (s ++ t) = escape s ++ escape t.
Proof. unfold escape. now rewrite !replace_char_app. Qed.

(** What the six passes do to a single character. *)
Lemma escape_one (c : ascii) :
  escape (String c "")
  = if is_escaped_char c then String "\" (String c "") else String c "".
Proof.
  destruct c as [[] [] [] [] [] [] [] []]; reflexivity.
Qed.

Lemma escape_cons (c : ascii) (s : string) :
  escape (String c s)
  = (if is_escaped_char c then String "\" (String c "") else String c "")
    ++ escape s.
Proof.
  change (String c s) with (String c "" ++ s).
  now rewrite escape_app, escape_one.
Qed.

Lemma escape_refines_spec (s : string) : escape s = escape_spec s.
Proof.
  induction s as [|c s IH]; [reflexivity |].
  rewrite escape_cons, IH. simpl.
  destruct (is_escaped_char c); reflexivity.
Qed.

Lemma unescape_escape_spec (s : string) : unescape (escape_spec s) = s.
Proof.
  induction s as [|c s IH]; [reflexivity |].
  simpl. destruct (is_escaped_char c) eqn:Hc.
  - simpl. rewrite Hc, IH. reflexivity.
  - assert (Hb : Ascii.eqb c "\" = false).
    { destruct (Ascii.eqb_spec c "\") as [->|]; [discriminate Hc | reflexivity]. }
    simpl. rewrite Hb, IH. reflexivity.
Qed.

Lemma escape_nonempty (s : string) :
  is_empty s = false -> is_empty (escape s) = false.
Proof.
  destruct s as [|c s]; [discriminate |]. intros _.
  rewrite escape_cons. apply is_empty_app_l.
  destruct (is_escaped_char c); reflexivity.
Qed.

(** C8: the escaping applied to a plain-text run (rule 0 on a [String]
    record) always returns, leaves [tableHeader] alone, and yields the
    six-pass [escape] of the text; [escape] puts one backslash in front of
    each backslash, at sign, bang, bracket and percent sign and copies
    every other character (star, underscore and backtick among them), and
    removing one backslash in front of each listed character gives the
    original text back. *)
Theorem escape_total_pure_and_reversible :
  forall (t : string) (document : option Parent) (h : string),
    rule_string (StringObj t) (VStr t) document h = (Returned (VStr (escape t)), h)
    /\ escape t = escape_spec t
    /\ unescape (escape t) = t
    /\ is_escaped_char "*" = false
    /\ is_escaped_char "_" = false
    /\ is_escaped_char "`" = false.
Proof.
  intros t document h.
  split; [reflexivity |].
  split; [apply escape_refines_spec |].
  split; [rewrite escape_refines_spec; apply unescape_escape_spec |].
  repeat split.
Qed.

(** ** The walker *)

Section Walker.

Variable encode : value -> string.

Abbreviation md := (default_Markdown encode).

Lemma bind_returned {A B : Type} (c : M A) (k : A -> M B) (h h' : string)
  (a : A) :
  c h = (Returned a, h') -> bind c k h = k a h'.
Proof. unfold bind. now intros ->. Qed.

Lemma bind_thrown {A B : Type} (c : M A) (k : A -> M B) (h h' : string)
  (e : error) :
  c h = (Thrown e, h') -> bind c k h = (Thrown e, h').
Proof. unfold bind. now intros ->. Qed.

(** A block is rendered from its rendered children by the first rule
    that gives a truthy result. *)
Lemma serializeNode_Block (this : Markdown) (ty : string)
  (data : gmap string value) (ns : list Node) (parent : Parent)
  (h h1 : string) (rs : list rendered) :
  mapM (fun n => serializeNode this n (ParentNode ty)) ns h
  = (Returned rs, h1) ->
  serializeNode this (Block ty data ns) parent h
  = (r <- first_match (rules this) (NodeObj (Block ty data ns))
            (VStr (children_text rs)) (Some parent) ;;
     ret (Single r)) h1.
Proof.
  intros Hc. simpl. now rewrite (bind_returned _ _ _ _ _ Hc).
Qed.

(** C7: a heading block of level 1 to 6 renders as that many hash signs,
    a space and the children text; the children of heading1 go through
    soft-break formatting, those of heading2 to heading6 are copied
    unchanged. The soft break of heading1 is the children text cut at its
    newlines and joined again with two spaces and a newline. *)
Theorem heading_renders_hashes_space_children :
  forall (level : nat) (data : gmap string value) (ns : list Node)
         (parent : Parent) (h h1 : string) (rs : list rendered),
    1 <= level <= 6 ->
    mapM (fun n => serializeNode md n (ParentNode (heading_type level))) ns h
    = (Returned rs, h1) ->
    serializeNode md (Block (heading_type level) data ns) parent h
    = (Returned
         (Single
            (VStr (repeat_string level "#" ++ " "
                   ++ (if Nat.eqb level 1
                       then replace_char LF ("  " ++ nl) (children_text rs)
                       else children_text rs)))),
       h1)
    /\ serializeNode md (Block (heading_type level) data ns) parent h
       = (Returned
            (Single
               (VStr (repeat_string level "#" ++ " "
                      ++ (if Nat.eqb level 1
                          then soft_break_by_lines (children_text rs)
                          else children_text rs)))),
          h1).
Proof.
  intros level data ns parent h h1 rs Hlevel Hc.
  rewrite <- soft_break_refines_spec.
  rewrite (serializeNode_Block _ _ _ _ _ _ _ _ Hc).
  assert (Hcases : level = 1 \/ level = 2 \/ level = 3 \/ level = 4
                   \/ level = 5 \/ level = 6) by lia.
  destruct Hcases as [-> | [-> | [-> | [-> | [-> | ->]]]]]; split; reflexivity.
Qed.

(** C10: an image block whose data has no [alt] field renders the text
    "undefined" in the alt position; the [src] field alone defaults to
    the empty string, which is then URL-encoded. *)
Theorem image_without_alt_renders_undefined :
  forall (data : gmap string value) (ns : list Node) (parent : Parent)
         (h h1 : string) (rs : list rendered),
    data !! "alt" = None ->
    mapM (fun n => serializeNode md n (ParentNode "image")) ns h
    = (Returned rs, h1) ->
    serializeNode md (Block "image" data ns) parent h
    = (Returned
         (Single
            (VStr ("![undefined]("
                   ++ encode (js_or (default VUndef (data !! "src")) (VStr ""))
                   ++ ")" ++ nl))),
       h1)
    /\ (data !! "src" = None ->
        js_or (default VUndef (data !! "src")) (VStr "") = VStr "").
Proof.
  intros data ns parent h h1 rs Halt Hc. split.
  - rewrite (serializeNode_Block _ _ _ _ _ _ _ _ Hc).
    cbn -[String.append]. unfold bind, ret. cbn -[String.append].
    rewrite Halt. reflexivity.
  - intros ->. reflexivity.
Qed.

(** *** Text nodes under the built-in rules *)

Lemma serializeString_default (t h : string) :
  serializeString md t h = (Returned (string_value t), h).
Proof.
  unfold serializeString, string_value. destruct t as [|c t]; [reflexivity |].
  cbn -[escape]. unfold bind, ret. cbn -[escape].
  now rewrite (escape_nonempty (String c t) eq_refl).
Qed.

Lemma first_match_mark_default (m : Mark) (children : value) (h : string) :
  first_match (rules md) (MarkObj m) children None h
  = (Returned (mark_value children m), h).
Proof.
  unfold mark_value. cbn -[String.append]. unfold bind, ret.
  cbn -[String.append].
  repeat (destruct (String.eqb (mark_type m) _); [reflexivity |]).
  reflexivity.
Qed.

Lemma reduceM_marks_default (ms : list Mark) (init : value) (h : string) :
  reduceM (fun children mark =>
             first_match (rules md) (MarkObj mark) children None) ms init h
  = (Returned (List.fold_left mark_value ms init), h).
Proof.
  revert init. induction ms as [|m ms IH]; intros init; [reflexivity |].
  cbn [reduceM List.fold_left].
  rewrite (bind_returned _ _ _ _ _ (first_match_mark_default m init h)).
  apply IH.
Qed.

Lemma serializeLeaves_default (l : Leaf) (h : string) :
  serializeLeaves md l h = (Returned (leaf_value l), h).
Proof.
  unfold serializeLeaves, leaf_value.
  rewrite (bind_returned _ _ _ _ _ (serializeString_default (text l) h)).
  apply reduceM_marks_default.
Qed.

Lemma mapM_pure {A B : Type} (f : A -> M B) (g : A -> B) (l : list A)
  (h : string) :
  (forall a h', f a h' = (Returned (g a), h')) ->
  mapM f l h = (Returned (List.map g l), h).
Proof.
  intros Hf. induction l as [|a l IH]; [reflexivity |].
  cbn [mapM List.map]. rewrite (bind_returned _ _ _ _ _ (Hf a h)).
  fold (mapM f). rewrite (bind_returned _ _ _ _ _ IH). reflexivity.
Qed.

Lemma serializeNode_Text (leaves : list Leaf) (parent : Parent) (h : string) :
  serializeNode md (Text leaves) parent h
  = (Returned (Leaves (List.map leaf_value leaves)), h).
Proof.
  cbn [serializeNode].
  rewrite (bind_returned _ _ _ _ _
             (mapM_pure _ leaf_value leaves h serializeLeaves_default)).
  reflexivity.
Qed.

(** For a leaf whose text is not empty the marks nest in stored order. *)
Lemma bold_italic_nonempty (t h : string) :
  is_empty t = false ->
  serializeLeaves md {| text := t; marks := [Sample.bold; Sample.italic] |} h
  = (Returned (VStr ("*" ++ "**" ++ escape t ++ "**" ++ "*")), h).
Proof.
  intros Ht. rewrite serializeLeaves_default.
  unfold leaf_value, string_value. cbn [text marks]. rewrite Ht.
  cbn. now rewrite append_assoc.
Qed.

(** C4: a leaf with stored marks [bold, italic] is folded in that order:
    bold wraps first, italic last and outermost. The accumulator starts
    from what [serializeString] returns, which is the escaped text only
    when the text is not empty; for the empty text it is [undefined], and
    the bold rule interpolates it as the text "undefined". *)
Theorem bold_italic_fold_and_empty_text :
  forall (t h : string),
    serializeLeaves md {| text := t; marks := [Sample.bold; Sample.italic] |} h
    = (Returned
         (VStr ("*" ++ "**"
                ++ (if is_empty t then "undefined" else escape t)
                ++ "**" ++ "*")),
       h).
Proof.
  intros t h. rewrite serializeLeaves_default.
  unfold leaf_value, string_value. cbn [text marks].
  destruct (is_empty t); [reflexivity |].
  cbn. now rewrite append_assoc.
Qed.

Lemma join_no_separator (l : list string) :
  join "" l = List.fold_right String.append "" l.
Proof.
  induction l as [|s l IH]; [reflexivity |].
  destruct l as [|s' l].
  - cbn. now rewrite append_nil_r.
  - change (join "" (s :: s' :: l)) with (s ++ "" ++ join "" (s' :: l)).
    rewrite IH. reflexivity.
Qed.

Lemma fold_append_app (l l' : list string) :
  List.fold_right String.append "" (l ++ l')
  = List.fold_right String.append "" l ++ List.fold_right String.append "" l'.
Proof.
  induction l as [|s l IH]; [reflexivity |].
  cbn [List.app List.fold_right]. now rewrite IH, append_assoc.
Qed.

Lemma children_text_app (rs rs' : list rendered) :
  children_text (rs ++ rs') = children_text rs ++ children_text rs'.
Proof.
  unfold children_text, flatten.
  rewrite List.map_app, List.concat_app, List.map_app.
  now rewrite !join_no_separator, fold_append_app.
Qed.

(** A node that no rule matches adds nothing to its parent's children
    text, whatever stands around it. *)
Lemma unmatched_node_adds_nothing (before after : list rendered) :
  children_text (before ++ Single VUndef :: after)
  = children_text (before ++ after).
Proof.
  change (Single VUndef :: after) with (List.app [Single VUndef] after).
  now rewrite !children_text_app.
Qed.

(** The rule loop returns a truthy value or [undefined], whatever the
    rules are: a falsy result of a rule is never handed on. *)
Lemma first_match_truthy_or_undefined (rs : list Rule) (obj : Obj)
  (children : value) (document : option Parent) (h h' : string) (v : value) :
  first_match rs obj children document h = (Returned v, h') ->
  v = VUndef \/ truthy v = true.
Proof.
  revert h. induction rs as [|rule rs IH]; intros h; cbn [first_match].
  - intros [= <- _]. now left.
  - destruct (serialize_fn rule) as [f|]; [| apply IH].
    unfold bind. destruct (f obj children document h) as [[r|e] h1];
      [| discriminate].
    destruct (truthy r) eqn:Hr; [| apply IH].
    intros [= <- _]. now right.
Qed.

(** C3: a result of [undefined] is dropped by the join of the children
    (a block of a type no rule knows renders nothing and the paragraph
    after it still renders), but inside [serializeLeaves] it is
    interpolated: a leaf with empty text and the mark bold, and a leaf with
    text "a" and the marks [underline, bold] (no rule matches underline),
    both render as "**undefined**". *)
Theorem undefined_reaches_the_output_through_marks :
  forall (List_toString : list value -> string) (h : string),
    join_item VUndef = ""
    /\ serialize List_toString md
         [ Block "unknown" ∅ [Sample.plain "x"];
           Block "paragraph" ∅ [Sample.plain "y"] ] h
       = (Returned ("y" ++ nl), h)
    /\ serializeLeaves md Sample.empty_bold_leaf h
       = (Returned (VStr "**undefined**"), h)
    /\ serialize List_toString md
         [ Block "paragraph" ∅ [Text [Sample.empty_bold_leaf]] ] h
       = (Returned ("**undefined**" ++ nl), h)
    /\ serialize List_toString md
         [ Block "paragraph" ∅ [Text [Sample.unknown_then_bold_leaf]] ] h
       = (Returned ("**undefined**" ++ nl), h).
Proof.
  intros List_toString h. repeat split.
Qed.

(** *** Lists *)

Lemma lines_nonempty (s : string) : lines s <> [].
Proof.
  destruct s as [|c s]; [discriminate |].
  cbn [lines]. destruct (is_line_terminator c); [discriminate |].
  destruct (lines s); discriminate.
Qed.

Lemma insert_at_line_starts_true (ind s : string) :
  insert_at_line_starts ind true s = ind ++ insert_at_line_starts ind false s.
Proof. destruct s; cbn [insert_at_line_starts]; [now rewrite append_nil_r | reflexivity]. Qed.

(** The regular-expression replacement and the line-by-line reading agree. *)
Lemma insert_at_line_starts_lines (ind s : string) :
  List.fold_right String.append "" (List.map (fun l => ind ++ l) (lines s))
  = ind ++ insert_at_line_starts ind false s.
Proof.
  induction s as [|c s IH].
  { cbn [lines insert_at_line_starts List.map List.fold_right].
    now rewrite !append_nil_r. }
  cbn [lines insert_at_line_starts].
  destruct (is_line_terminator c) eqn:Hc.
  - cbn [List.map List.fold_right]. rewrite IH, <- insert_at_line_starts_true.
    now rewrite append_assoc.
  - destruct (lines s) as [|l ls] eqn:Hl; [now destruct (lines_nonempty s) |].
    cbn [List.map List.fold_right] in *.
    rewrite append_assoc in IH. apply String.app_inj in IH.
    rewrite append_assoc. cbn [String.append]. now rewrite IH.
Qed.

Lemma indent_lines_refines_spec (s : string) :
  insert_at_line_starts "   " true s = indent_every_line s.
Proof.
  unfold indent_every_line.
  now rewrite insert_at_line_starts_lines, insert_at_line_starts_true.
Qed.

(** C6: a todo-list, bulleted-list or ordered-list block whose parent is
    the Document renders as a newline followed by its children text as it
    is; under any other parent it renders as a newline followed by the
    children text with three spaces in front of every line. A line ends
    with its line terminator, and the text after the last terminator is
    the last line, also when it is empty. *)
Theorem list_block_newline_and_indentation :
  forall (ty : string) (data : gmap string value) (ns : list Node)
         (parent : Parent) (h h1 : string) (rs : list rendered),
    ty = "todo-list" \/ ty = "bulleted-list" \/ ty = "ordered-list" ->
    mapM (fun n => serializeNode md n (ParentNode ty)) ns h = (Returned rs, h1) ->
    serializeNode md (Block ty data ns) parent h
    = (Returned
         (Single
            (VStr (nl ++ (if is_document parent
                          then children_text rs
                          else indent_every_line (children_text rs))))),
       h1).
Proof.
  intros ty data ns parent h h1 rs Hty Hc.
  rewrite (serializeNode_Block _ _ _ _ _ _ _ _ Hc).
  rewrite <- indent_lines_refines_spec.
  destruct Hty as [-> | [-> | ->]]; destruct parent; reflexivity.
Qed.

(** C5 (as amended): the marker of a list-item block is chosen by the type
    of its parent (the check box by the item's own [checked] field); the
    item renders as the marker, its soft-broken children text and one
    appended newline. *)
Theorem list_item_marker_softbreak_newline :
  forall (data : gmap string value) (ns : list Node) (parent : Parent)
         (h h1 : string) (rs : list rendered),
    mapM (fun n => serializeNode md n (ParentNode "list-item")) ns h
    = (Returned rs, h1) ->
    serializeNode md (Block "list-item" data ns) parent h
    = (Returned
         (Single
            (VStr (list_item_marker parent (default VUndef (data !! "checked"))
                   ++ replace_char LF ("  " ++ nl) (children_text rs)
                   ++ nl))),
       h1).
Proof.
  intros data ns parent h h1 rs Hc.
  rewrite (serializeNode_Block _ _ _ _ _ _ _ _ Hc).
  unfold list_item_marker.
  destruct parent as [|pty]; [reflexivity |].
  cbn -[String.append replace_char]. unfold bind, ret.
  cbn -[String.append replace_char].
  destruct (String.eqb pty "ordered-list"); [reflexivity |].
  destruct (String.eqb pty "todo-list"); [| reflexivity].
  destruct (truthy (default VUndef (data !! "checked"))); reflexivity.
Qed.

(** *** The facade *)

(** [trim_start] removes a prefix of white space and nothing else: what
    remains is a suffix of the text that does not begin with white space. *)
Lemma trim_start_removes_leading_space_only (s : string) :
  exists w : string,
    s = w ++ trim_start s
    /\ all_space w = true
    /\ starts_without_space (trim_start s) = true.
Proof.
  induction s as [|c s (w & Hs & Hw & Ht)].
  - exists "". repeat split.
  - cbn [trim_start]. destruct (is_space c) eqn:Hc.
    + exists (String c w). repeat split.
      * cbn [String.append]. now rewrite <- Hs.
      * cbn [all_space]. now rewrite Hc, Hw.
      * exact Ht.
    + exists "". repeat split. cbn [starts_without_space]. now rewrite Hc.
Qed.

(** C9: [serialize] renders the top-level nodes in order, joins the
    results with one newline and removes white space from the front of the
    joined text only; a document holding one paragraph with the text leaf
    "hello" serializes to "hello" followed by one newline. *)
Theorem serialize_joins_and_trims_front :
  forall (List_toString : list value -> string) (document_nodes : list Node)
         (h h1 : string) (elements : list rendered),
    mapM (fun node => serializeNode md node ParentDocument) document_nodes h
    = (Returned elements, h1) ->
    let output := join nl (List.map (element_string List_toString) elements) in
    serialize List_toString md document_nodes h
    = (Returned (trim_start output), h1)
    /\ (exists w : string,
           output = w ++ trim_start output
           /\ all_space w = true
           /\ starts_without_space (trim_start output) = true)
    /\ serialize List_toString md Sample.hello h
       = (Returned ("hello" ++ nl), h).
Proof.
  intros List_toString document_nodes h h1 elements Hc output.
  split; [| split].
  - unfold serialize. now rewrite (bind_returned _ _ _ _ _ Hc).
  - apply trim_start_removes_leading_space_only.
  - reflexivity.
Qed.

(** *** Tables *)

Lemma align_marker_default (v : value) :
  is_string v "left" = false ->
  is_string v "center" = false ->
  is_string v "right" = false ->
  align_marker v = "| --- ".
Proof. unfold align_marker. cbn [switch]. now intros -> -> ->. Qed.

Lemma table_head_cell (data : gmap string value) (ns : list Node)
  (parent : Parent) (h h1 : string) (rs : list rendered) :
  mapM (fun n => serializeNode md n (ParentNode "table-head")) ns h
  = (Returned rs, h1) ->
  serializeNode md (Block "table-head" data ns) parent h
  = (Returned (Single (VStr ("| " ++ children_text rs ++ " "))),
     h1 ++ align_marker (default VUndef (data !! "align"))).
Proof.
  intros Hc. now rewrite (serializeNode_Block _ _ _ _ _ _ _ _ Hc).
Qed.

Lemma table_row (data : gmap string value) (ns : list Node)
  (parent : Parent) (h h1 : string) (rs : list rendered) :
  mapM (fun n => serializeNode md n (ParentNode "table-row")) ns h
  = (Returned rs, h1) ->
  serializeNode md (Block "table-row" data ns) parent h
  = (Returned
       (Single
          (VStr (children_text rs ++ "|" ++ nl
                 ++ (if is_empty h1 then "" else h1 ++ "|" ++ nl)))),
     "").
Proof.
  intros Hc. rewrite (serializeNode_Block _ _ _ _ _ _ _ _ Hc).
  generalize (children_text rs). intros c.
  destruct c, h1; reflexivity.
Qed.

Lemma table_block (data : gmap string value) (ns : list Node)
  (parent : Parent) (h h1 : string) (rs : list rendered) :
  mapM (fun n => serializeNode md n (ParentNode "table")) ns h
  = (Returned rs, h1) ->
  serializeNode md (Block "table" data ns) parent h
  = (Returned
       (Single (if is_empty (children_text rs) then VUndef
                else VStr (children_text rs))),
     "").
Proof.
  intros Hc. rewrite (serializeNode_Block _ _ _ _ _ _ _ _ Hc).
  destruct (children_text rs); reflexivity.
Qed.

(** C2: a table-head cell renders as its children between "| " and " "
    and appends one alignment marker to the pending header (left, center,
    right, or the default for any other or absent alignment); a table-row
    renders as its cells, a bar and a newline, followed, when the header is
    pending, by the header, a bar and a newline, and leaves the header
    empty. The table with head cells col1 (left) and col2 (right) and one
    data row a, b renders as the three lines of the spec. *)
Theorem table_head_and_row_rendering :
  (forall (data : gmap string value) (ns : list Node) (parent : Parent)
          (h h1 : string) (rs : list rendered),
      mapM (fun n => serializeNode md n (ParentNode "table-head")) ns h
      = (Returned rs, h1) ->
      serializeNode md (Block "table-head" data ns) parent h
      = (Returned (Single (VStr ("| " ++ children_text rs ++ " "))),
         h1 ++ align_marker (default VUndef (data !! "align"))))
  /\ align_marker (VStr "left") = "|:--- "
  /\ align_marker (VStr "center") = "|:---:"
  /\ align_marker (VStr "right") = "| ---:"
  /\ (forall v : value,
         is_string v "left" = false ->
         is_string v "center" = false ->
         is_string v "right" = false ->
         align_marker v = "| --- ")
  /\ (forall (data : gmap string value) (ns : list Node) (parent : Parent)
             (h h1 : string) (rs : list rendered),
         mapM (fun n => serializeNode md n (ParentNode "table-row")) ns h
         = (Returned rs, h1) ->
         serializeNode md (Block "table-row" data ns) parent h
         = (Returned
              (Single
                 (VStr (children_text rs ++ "|" ++ nl
                        ++ (if is_empty h1 then "" else h1 ++ "|" ++ nl)))),
            ""))
  /\ serializeNode md Sample.table_2x2 ParentDocument ""
     = (Returned
          (Single
             (VStr ("| col1 | col2 |" ++ nl
                    ++ "|:--- | ---:|" ++ nl
                    ++ "| a | b |" ++ nl))),
        "")
  /\ (forall List_toString : list value -> string,
         serialize List_toString md [Sample.table_2x2] ""
         = (Returned
              ("| col1 | col2 |" ++ nl
               ++ "|:--- | ---:|" ++ nl
               ++ "| a | b |" ++ nl),
            "")).
Proof.
  split; [exact table_head_cell |].
  do 3 (split; [reflexivity |]).
  split; [exact align_marker_default |].
  split; [exact table_row |].
  split; reflexivity.
Qed.

Lemma serializeNode_Block_thrown (this : Markdown) (ty : string)
  (data : gmap string value) (ns : list Node) (parent : Parent)
  (h h1 : string) (e : error) :
  mapM (fun n => serializeNode this n (ParentNode ty)) ns h = (Thrown e, h1) ->
  serializeNode this (Block ty data ns) parent h = (Thrown e, h1).
Proof.
  intros Hc. simpl. now rewrite (bind_thrown _ _ _ _ _ Hc).
Qed.

(** A table that returns leaves no header pending. *)
Lemma table_leaves_header_empty (data : gmap string value) (ns : list Node)
  (parent : Parent) (h h' : string) (r : rendered) :
  serializeNode md (Block "table" data ns) parent h = (Returned r, h') ->
  h' = "".
Proof.
  destruct (mapM (fun n => serializeNode md n (ParentNode "table")) ns h)
    as [[rs | e] h1] eqn:Hc.
  - rewrite (table_block _ _ _ _ _ _ Hc). now intros [= _ <-].
  - rewrite (serializeNode_Block_thrown _ _ _ _ _ _ _ _ Hc). discriminate.
Qed.

(** The cells of a row of table-head cells that hold text append their
    markers, in order, to the header that was pending before the row. *)
Lemma text_head_cells_pending (cs : list (gmap string value * list Leaf))
  (h : string) :
  mapM (fun n => serializeNode md n (ParentNode "table-row"))
    (List.map text_head_cell cs) h
  = (Returned (List.map text_head_cell_rendered cs),
     h ++ List.fold_right String.append "" (List.map text_head_cell_marker cs)).
Proof.
  revert h. induction cs as [|c cs IH]; intros h.
  - cbn. now rewrite append_nil_r.
  - cbn [List.map mapM List.fold_right]. fold (mapM (fun n => serializeNode md n (ParentNode "table-row"))).
    assert (Hcell : serializeNode md (text_head_cell c) (ParentNode "table-row") h
                    = (Returned (text_head_cell_rendered c),
                       h ++ text_head_cell_marker c)).
    { unfold text_head_cell, text_head_cell_rendered, text_head_cell_marker.
      apply table_head_cell. cbn [mapM].
      rewrite (bind_returned _ _ _ _ _ (serializeNode_Text (snd c) _ h)).
      reflexivity. }
    rewrite (bind_returned _ _ _ _ _ Hcell).
    rewrite (bind_returned _ _ _ _ _ (IH _)).
    unfold ret. now rewrite append_assoc.
Qed.

(** C1 (as amended): the pending header is reset when the rule of a table
    runs, that is after the rows of the table have been rendered; a table
    that returns therefore leaves the header empty, and whatever is
    rendered after it starts as from an empty header. A table-row emits
    the header that is pending once its own cells are rendered and leaves
    it empty; for a row of table-head cells holding text, that header is
    the one pending before the row followed by one marker per cell. *)
Theorem tableHeader_reset_on_table_exit :
  (forall (data : gmap string value) (ns : list Node) (parent : Parent)
          (h h1 : string) (rs : list rendered),
      mapM (fun n => serializeNode md n (ParentNode "table")) ns h
      = (Returned rs, h1) ->
      serializeNode md (Block "table" data ns) parent h
      = (Returned
           (Single (if is_empty (children_text rs) then VUndef
                    else VStr (children_text rs))),
         ""))
  /\ (forall (data : gmap string value) (ns : list Node) (parent : Parent)
             (h h' : string) (r : rendered) (next : Node) (p : Parent),
         serializeNode md (Block "table" data ns) parent h = (Returned r, h') ->
         h' = "" /\ serializeNode md next p h' = serializeNode md next p "")
  /\ (forall (data : gmap string value) (ns : list Node) (parent : Parent)
             (h h1 : string) (rs : list rendered),
         mapM (fun n => serializeNode md n (ParentNode "table-row")) ns h
         = (Returned rs, h1) ->
         serializeNode md (Block "table-row" data ns) parent h
         = (Returned
              (Single
                 (VStr (children_text rs ++ "|" ++ nl
                        ++ (if is_empty h1 then "" else h1 ++ "|" ++ nl)))),
            ""))
  /\ (forall (cs : list (gmap string value * list Leaf)) (h : string),
         mapM (fun n => serializeNode md n (ParentNode "table-row"))
           (List.map text_head_cell cs) h
         = (Returned (List.map text_head_cell_rendered cs),
            h ++ List.fold_right String.append ""
                   (List.map text_head_cell_marker cs))).
Proof.
  split; [exact table_block |].
  split.
  { intros data ns parent h h' r next p Ht.
    apply table_leaves_header_empty in Ht. now subst h'. }
  split; [exact table_row | exact text_head_cells_pending].
Qed.

End Walker.

(** ** Closed instances and counterexamples *)

(** A header pending when a table starts is emitted by its first row: the
    rendering of a table depends on the header it starts from. *)
Lemma table_not_reset_at_entry : ~ table_reset_at_entry Sample.md.
Proof.
  intros H.
  specialize (H ∅ [Block "table-row" ∅ [Sample.cell "a"]] ParentDocument "|:---:").
  vm_compute in H. discriminate H.
Qed.

(** From an empty header, the marker of the outer head cell A comes out
    under the row of the table nested in the next head cell, and the outer
    row is left with the marker of its second cell only. *)
Lemma nested_table_takes_the_outer_marker :
  serializeNode Sample.md Sample.nested_table ParentDocument ""
  = (Returned
       (Single
          (VStr ("| A | | c |" ++ nl
                 ++ "|:--- |" ++ nl
                 ++ " |" ++ nl
                 ++ "| ---:|" ++ nl))),
     "").
Proof. reflexivity. Qed.

(** A list item that holds a block quote ends with two newlines. *)
Lemma list_item_may_end_with_two_newlines :
  serializeNode Sample.md Sample.quote_item (ParentNode "bulleted-list") ""
  = (Returned (Single (VStr ("* > q  " ++ nl ++ nl))), "")
  /\ ~ ends_with_exactly_one_newline ("* > q  " ++ nl ++ nl).
Proof.
  split; [reflexivity |]. vm_compute. discriminate.
Qed.

(** *** Instances of the theorems on the sample documents *)

Lemma heading1_breaks_and_heading2_does_not :
  (1 <= 1 <= 6
   /\ serializeNode Sample.md
        (Block (heading_type 1) ∅ [Sample.plain Sample.two_lines])
        ParentDocument ""
      = (Returned (Single (VStr ("# a  " ++ nl ++ "b"))), ""))
  /\ (1 <= 2 <= 6
      /\ serializeNode Sample.md
           (Block (heading_type 2) ∅ [Sample.plain Sample.two_lines])
           ParentDocument ""
         = (Returned (Single (VStr ("## a" ++ nl ++ "b"))), "")).
Proof.
  split; (split; [lia |]).
  - etransitivity.
    + apply (proj2 (heading_renders_hashes_space_children Sample.encode 1 ∅
                      [Sample.plain Sample.two_lines] ParentDocument "" ""
                      [Leaves [VStr Sample.two_lines]]
                      ltac:(lia) eq_refl)).
    + reflexivity.
  - etransitivity.
    + apply (proj2 (heading_renders_hashes_space_children Sample.encode 2 ∅
                      [Sample.plain Sample.two_lines] ParentDocument "" ""
                      [Leaves [VStr Sample.two_lines]]
                      ltac:(lia) eq_refl)).
    + reflexivity.
Defined.

Lemma image_with_src_only :
  ({[ "src" := VStr "x.png" ]} : gmap string value) !! "alt" = None
  /\ serializeNode Sample.md (Block "image" {[ "src" := VStr "x.png" ]} [])
       ParentDocument ""
     = (Returned (Single (VStr ("![undefined](x.png)" ++ nl))), "").
Proof.
  split; [reflexivity |].
  refine (proj1 (image_without_alt_renders_undefined Sample.encode
                   {[ "src" := VStr "x.png" ]} [] ParentDocument "" "" []
                   _ _)); reflexivity.
Defined.

Lemma nested_ordered_list_is_indented :
  serializeNode Sample.md
    (Block "ordered-list" ∅
       [Block "list-item" ∅ [Block "paragraph" ∅ [Sample.plain "b"]]])
    (ParentNode "list-item") ""
  = (Returned (Single (VStr (nl ++ "   1. b" ++ nl ++ "   "))), "").
Proof.
  apply (list_block_newline_and_indentation Sample.encode "ordered-list" ∅
           [Block "list-item" ∅ [Block "paragraph" ∅ [Sample.plain "b"]]]
           (ParentNode "list-item") "" ""
           [Single (VStr ("1. b" ++ nl))]);
    [right; right; reflexivity | reflexivity].
Defined.

Lemma checked_todo_item :
  serializeNode Sample.md
    (Block "list-item" {[ "checked" := VBool true ]}
       [Block "paragraph" ∅ [Sample.plain "done"]])
    (ParentNode "todo-list") ""
  = (Returned (Single (VStr ("[x] done" ++ nl))), "").
Proof.
  etransitivity.
  - apply (list_item_marker_softbreak_newline Sample.encode
             {[ "checked" := VBool true ]}
             [Block "paragraph" ∅ [Sample.plain "done"]]
             (ParentNode "todo-list") "" "" [Single (VStr "done")]).
    reflexivity.
  - reflexivity.
Defined.

Lemma two_paragraphs_serialized :
  serialize Sample.List_toString Sample.md
    [Block "paragraph" ∅ [Sample.plain "x"];
     Block "paragraph" ∅ [Sample.plain "y "]] ""
  = (Returned ("x" ++ nl ++ nl ++ nl ++ "y " ++ nl), "").
Proof.
  refine (proj1 (serialize_joins_and_trims_front Sample.encode
                  Sample.List_toString
                  [Block "paragraph" ∅ [Sample.plain "x"];
                   Block "paragraph" ∅ [Sample.plain "y "]] "" ""
                  [Single (VStr (nl ++ "x" ++ nl));
                   Single (VStr (nl ++ "y " ++ nl))]
                  _)); reflexivity.
Defined.

Lemma head_cell_and_row_on_the_sample :
  serializeNode Sample.md (Sample.head_cell "center" "h") (ParentNode "table-row")
    "|:--- "
  = (Returned (Single (VStr "| h ")), "|:--- |:---:")
  /\ serializeNode Sample.md
       (Block "table-row" ∅ [Sample.head_cell "left" "col1";
                             Sample.head_cell "right" "col2"])
       (ParentNode "table") ""
     = (Returned
          (Single (VStr ("| col1 | col2 |" ++ nl ++ "|:--- | ---:|" ++ nl))),
        "").
Proof.
  split.
  - refine (proj1 (table_head_and_row_rendering Sample.encode)
              {[ "align" := VStr "center" ]} [Sample.plain "h"]
              (ParentNode "table-row") "|:--- " "|:--- " [Leaves [VStr "h"]]
              _); reflexivity.
  - refine (proj1 (proj2 (proj2 (proj2 (proj2 (proj2
              (table_head_and_row_rendering Sample.encode))))))
              ∅ [Sample.head_cell "left" "col1"; Sample.head_cell "right" "col2"]
              (ParentNode "table") "" "|:--- | ---:"
              [Single (VStr "| col1 "); Single (VStr "| col2 ")]
              _); reflexivity.
Defined.

Lemma sample_table_leaves_the_header_empty :
  serializeNode Sample.md Sample.table_2x2 ParentDocument "|:---:"
  = (Returned
       (Single
          (VStr ("| col1 | col2 |" ++ nl
                 ++ "|:---:|:--- | ---:|" ++ nl
                 ++ "| a | b |" ++ nl))),
     "").
Proof.
  etransitivity.
  - apply (proj1 (tableHeader_reset_on_table_exit Sample.encode)
             ∅
             [ Block "table-row" ∅ [Sample.head_cell "left" "col1";
                                    Sample.head_cell "right" "col2"];
               Block "table-row" ∅ [Sample.cell "a"; Sample.cell "b"] ]
             ParentDocument "|:---:" ""
             [ Single (VStr ("| col1 | col2 |" ++ nl
                             ++ "|:---:|:--- | ---:|" ++ nl));
               Single (VStr ("| a | b |" ++ nl)) ]).
    reflexivity.
  - reflexivity.
Defined.

(** * Further properties of the renderer *)

(** ** More on strings *)

Lemma append_length (s t : string) :
  String.length (s ++ t) = String.length s + String.length t.
Proof. induction s as [|c s IH]; simpl; [reflexivity | now rewrite IH]. Qed.

Lemma rev_app_append (s acc : string) :
  String.rev_app s acc = String.rev_app s "" ++ acc.
Proof.
  revert acc. induction s as [|c s IH]; intros acc; [reflexivity |].
  cbn [String.rev_app]. rewrite (IH (String c acc)), (IH (String c "")).
  now rewrite append_assoc.
Qed.

Lemma rev_append (s t : string) :
  String.rev (s ++ t) = String.rev t ++ String.rev s.
Proof.
  unfold String.rev. induction s as [|c s IH].
  - cbn. now rewrite append_nil_r.
  - cbn [String.append String.rev_app].
    rewrite (rev_app_append (s ++ t)), IH, (rev_app_append s (String c "")).
    now rewrite append_assoc.
Qed.

Lemma rev_involutive (s : string) : String.rev (String.rev s) = s.
Proof.
  induction s as [|c s IH]; [reflexivity |].
  change (String c s) with (String c "" ++ s) at 1.
  rewrite rev_append, rev_append, IH. reflexivity.
Qed.

Lemma escape_spec_length (s : string) :
  String.length s <= String.length (escape_spec s) <= 2 * String.length s.
Proof.
  induction s as [|c s IH]; [simpl; lia |].
  cbn [escape_spec]. destruct (is_escaped_char c); cbn [String.length]; lia.
Qed.

(** X1: escaping distributes over concatenation, maps different texts to
    different texts, and at most doubles the length. *)
Theorem escape_concat_injective_bounded :
  forall s t : string,
    escape (s ++ t) = escape s ++ escape t
    /\ (escape s = escape t -> s = t)
    /\ String.length s <= String.length (escape s) <= 2 * String.length s.
Proof.
  intros s t. split; [apply escape_app |]. split.
  - intros H. rewrite <- (unescape_escape_spec s), <- (unescape_escape_spec t).
    now rewrite <- !escape_refines_spec, H.
  - rewrite escape_refines_spec. apply escape_spec_length.
Qed.

(** ** Text nodes, leaves and marks *)

Section TextRules.

Variable encode : value -> string.

Abbreviation md := (default_Markdown encode).

Lemma join_item_string_value (t : string) :
  join_item (string_value t) = escape t.
Proof. destruct t; reflexivity. Qed.

Lemma children_text_leaves (vs : list value) :
  children_text [Leaves vs]
  = List.fold_right String.append "" (List.map join_item vs).
Proof.
  unfold children_text, flatten. cbn [List.map List.concat].
  now rewrite List.app_nil_r, join_no_separator.
Qed.

Lemma escape_leaves_text (ls : list Leaf) :
  List.fold_right String.append ""
    (List.map join_item (List.map (fun l => string_value (text l)) ls))
  = escape (leaves_text ls).
Proof.
  unfold leaves_text. induction ls as [|l ls IH]; [reflexivity |].
  cbn [List.map List.fold_right].
  now rewrite IH, join_item_string_value, escape_app.
Qed.

Lemma leaf_value_without_marks (ls : list Leaf) :
  Forall (fun l => marks l = []) ls ->
  List.map leaf_value ls = List.map (fun l => string_value (text l)) ls.
Proof.
  induction 1 as [|l ls Hl _ IH]; [reflexivity |].
  cbn [List.map]. rewrite IH. unfold leaf_value. now rewrite Hl.
Qed.

(** X2: a text node whose leaves carry no marks always renders, leaves
    [tableHeader] alone, and contributes to its parent the escaped
    concatenation of the leaf texts: leaf boundaries and empty leaves leave
    no trace. *)
Theorem unmarked_text_contributes_escaped_text :
  forall (ls : list Leaf) (parent : Parent) (h : string),
    Forall (fun l => marks l = []) ls ->
    exists vs : list value,
      serializeNode md (Text ls) parent h = (Returned (Leaves vs), h)
      /\ children_text [Leaves vs] = escape (leaves_text ls).
Proof.
  intros ls parent h Hls.
  exists (List.map (fun l => string_value (text l)) ls). split.
  - rewrite serializeNode_Text. now rewrite (leaf_value_without_marks _ Hls).
  - rewrite children_text_leaves. apply escape_leaves_text.
Qed.

(** X3: the text inside a code block is escaped like any other text: the
    block holds the escaped concatenation of its leaves between the two
    fences. *)
Theorem code_block_text_is_escaped :
  forall (data : gmap string value) (ls : list Leaf) (parent : Parent)
         (h : string),
    Forall (fun l => marks l = []) ls ->
    serializeNode md (Block "code" data [Text ls]) parent h
    = (Returned
         (Single
            (VStr ("```" ++ nl ++ escape (leaves_text ls) ++ nl
                   ++ "```" ++ nl))),
       h).
Proof.
  intros data ls parent h Hls.
  assert (Hc : mapM (fun n => serializeNode md n (ParentNode "code")) [Text ls] h
               = (Returned [Leaves (List.map (fun l => string_value (text l)) ls)],
                  h)).
  { cbn [mapM]. rewrite (bind_returned _ _ _ _ _ (serializeNode_Text encode ls _ h)).
    now rewrite (leaf_value_without_marks _ Hls). }
  rewrite (serializeNode_Block _ _ _ _ _ _ _ _ Hc).
  rewrite children_text_leaves, escape_leaves_text. reflexivity.
Qed.

Lemma mark_value_delimiter (children : value) (m : Mark) :
  mark_value children m
  = match mark_delimiter m with
    | Some d => VStr (d ++ to_string children ++ d)
    | None => VUndef
    end.
Proof.
  unfold mark_value, mark_delimiter. cbn [switch is_string].
  repeat (destruct (String.eqb (mark_type m) _); [reflexivity |]).
  reflexivity.
Qed.

Lemma mark_delimiter_palindrome (m : Mark) :
  String.rev (default "" (mark_delimiter m)) = default "" (mark_delimiter m).
Proof.
  unfold mark_delimiter. cbn [switch is_string].
  repeat (destruct (String.eqb (mark_type m) _); [reflexivity |]).
  reflexivity.
Qed.

Lemma fold_known_marks (ms : list Mark) (o x c : string) :
  Forall (fun m => mark_delimiter m <> None) ms ->
  List.fold_left mark_value ms (VStr (o ++ x ++ c))
  = VStr (List.fold_left (fun acc m => default "" (mark_delimiter m) ++ acc) ms o
          ++ x
          ++ List.fold_left (fun acc m => acc ++ default "" (mark_delimiter m)) ms c).
Proof.
  intros Hms. revert o c. induction Hms as [|m ms Hm _ IH]; intros o c;
    [reflexivity |].
  cbn [List.fold_left]. rewrite mark_value_delimiter.
  destruct (mark_delimiter m) as [d|]; [| now destruct Hm].
  cbn [default to_string].
  rewrite <- IH. now rewrite !append_assoc.
Qed.

Lemma delimiters_mirrored (ms : list Mark) (o c : string) :
  String.rev o = c ->
  String.rev
    (List.fold_left (fun acc m => default "" (mark_delimiter m) ++ acc) ms o)
  = List.fold_left (fun acc m => acc ++ default "" (mark_delimiter m)) ms c.
Proof.
  revert o c. induction ms as [|m ms IH]; intros o c Hoc; [exact Hoc |].
  cbn [List.fold_left]. apply IH.
  now rewrite rev_append, mark_delimiter_palindrome, Hoc.
Qed.

(** X4: a leaf with a non-empty text whose marks all have a rule renders as
    the escaped text wrapped once per mark, the first stored mark
    innermost; the closing delimiters are the mirror image of the opening
    ones. Rendering neither raises nor touches [tableHeader]. *)
Theorem known_marks_wrap_in_stored_order :
  forall (t : string) (ms : list Mark) (h : string),
    is_empty t = false ->
    Forall (fun m => mark_delimiter m <> None) ms ->
    serializeLeaves md {| text := t; marks := ms |} h
    = (Returned
         (VStr (opening_delimiters ms ++ escape t ++ closing_delimiters ms)),
       h)
    /\ closing_delimiters ms = String.rev (opening_delimiters ms).
Proof.
  intros t ms h Ht Hms. split.
  - rewrite serializeLeaves_default. unfold leaf_value, string_value.
    cbn [text marks]. rewrite Ht.
    rewrite <- (append_nil_r (escape t)) at 1.
    change (escape t ++ "") with ("" ++ escape t ++ "").
    now rewrite (fold_known_marks ms "" (escape t) "" Hms).
  - symmetry. now apply delimiters_mirrored.
Qed.

Lemma fold_marks_app (ms1 ms2 : list Mark) (v : value) :
  List.fold_left mark_value (ms1 ++ ms2)%list v
  = List.fold_left mark_value ms2 (List.fold_left mark_value ms1 v).
Proof. apply List.fold_left_app. Qed.

(** X5: a mark that no rule matches discards the text and every mark
    stored before it: the leaf renders exactly as a leaf with empty text
    that carries only the marks stored after the unmatched one. *)
Theorem unmatched_mark_discards_what_precedes :
  forall (t : string) (before after : list Mark) (u : Mark) (h : string),
    mark_delimiter u = None ->
    serializeLeaves md {| text := t; marks := (before ++ u :: after)%list |} h
    = serializeLeaves md {| text := ""; marks := after |} h.
Proof.
  intros t before after u h Hu.
  rewrite !serializeLeaves_default. unfold leaf_value. cbn [text marks].
  rewrite fold_marks_app. cbn [List.fold_left].
  rewrite mark_value_delimiter, Hu. reflexivity.
Qed.

End TextRules.

(** ** The rule loop and the caller's rules *)

Lemma first_match_app (rs1 rs2 : list Rule) (obj : Obj) (children : value)
  (document : option Parent) (h : string) :
  first_match (rs1 ++ rs2)%list obj children document h
  = match first_match rs1 obj children document h with
    | (Returned v, h') =>
        if truthy v then (Returned v, h')
        else first_match rs2 obj children document h'
    | (Thrown e, h') => (Thrown e, h')
    end.
Proof.
  revert h. induction rs1 as [|rule rs1 IH]; intros h.
  - reflexivity.
  - cbn [List.app first_match].
    destruct (serialize_fn rule) as [f|]; [| apply IH].
    unfold bind. destruct (f obj children document h) as [[r|e] h1];
      [| reflexivity].
    destruct (truthy r) eqn:Hr; [| apply IH].
    unfold ret. now rewrite Hr.
Qed.

(** X6: the rules given to the constructor are consulted before the
    built-in ones. When one of them gives a truthy result, that result is
    the rendering and no built-in rule runs; when none does, the built-in
    rules run from the [tableHeader] the caller's rules left; an error
    raised by a caller's rule ends the rendering. *)
Theorem caller_rules_take_precedence :
  forall (encode : value -> string) (options_rules : list Rule) (obj : Obj)
         (children : value) (document : option Parent) (h : string),
    first_match (rules (new_Markdown encode options_rules)) obj children
      document h
    = match first_match options_rules obj children document h with
      | (Returned v, h') =>
          if truthy v then (Returned v, h')
          else first_match (RULES encode) obj children document h'
      | (Thrown e, h') => (Thrown e, h')
      end.
Proof. intros. apply first_match_app. Qed.

Lemma Node_nested_ind (P : Node -> Prop) :
  (forall leaves, P (Text leaves)) ->
  (forall ty data ns, Forall P ns -> P (Block ty data ns)) ->
  (forall ty data ns, Forall P ns -> P (Inline ty data ns)) ->
  forall n, P n.
Proof.
  intros HText HBlock HInline. fix IH 1. intros [leaves | ty data ns | ty data ns].
  - apply HText.
  - apply HBlock. induction ns as [|n ns IHns]; constructor; [apply IH | exact IHns].
  - apply HInline. induction ns as [|n ns IHns]; constructor; [apply IH | exact IHns].
Qed.

Lemma mapM_ext {A B : Type} (f g : A -> M B) (l : list A) (h : string) :
  Forall (fun a => forall h', f a h' = g a h') l ->
  mapM f l h = mapM g l h.
Proof.
  intros Hl. revert h. induction Hl as [|a l Ha _ IH]; intros h; [reflexivity |].
  cbn [mapM]. fold (mapM f) (mapM g). unfold bind. rewrite Ha.
  destruct (g a h) as [[b|e] h1]; [| reflexivity]. now rewrite IH.
Qed.

Lemma first_match_skips_rules_without_serialize (rs1 rs2 : list Rule)
  (obj : Obj) (children : value) (document : option Parent) (h : string) :
  Forall (fun r => serialize_fn r = None) rs1 ->
  first_match (rs1 ++ rs2)%list obj children document h
  = first_match rs2 obj children document h.
Proof.
  induction 1 as [|rule rs1 Hrule _ IH]; [reflexivity |].
  cbn [List.app first_match]. now rewrite Hrule.
Qed.

Lemma reduceM_ext {A B : Type} (f g : B -> A -> M B) (l : list A) (init : B)
  (h : string) :
  (forall b a h', f b a h' = g b a h') ->
  reduceM f l init h = reduceM g l init h.
Proof.
  intros Hfg. revert init h. induction l as [|a l IH]; intros init h;
    [reflexivity |].
  cbn [reduceM]. unfold bind. rewrite Hfg.
  destruct (g init a h) as [[b|e] h1]; [apply IH | reflexivity].
Qed.

(** X7: rules that have no [serialize] function are skipped: a serializer
    built with such rules only renders every node, and every document,
    exactly as the serializer built with no options. *)
Theorem rules_without_serialize_change_nothing :
  forall (encode : value -> string) (List_toString : list value -> string)
         (options_rules : list Rule),
    Forall (fun r => serialize_fn r = None) options_rules ->
    (forall (n : Node) (parent : Parent) (h : string),
        serializeNode (new_Markdown encode options_rules) n parent h
        = serializeNode (default_Markdown encode) n parent h)
    /\ (forall (document_nodes : list Node) (h : string),
           serialize List_toString (new_Markdown encode options_rules)
             document_nodes h
           = serialize List_toString (default_Markdown encode)
               document_nodes h).
Proof.
  intros encode List_toString options_rules Hopts.
  assert (Hrules : forall obj children document h,
             first_match (rules (new_Markdown encode options_rules)) obj
               children document h
             = first_match (rules (default_Markdown encode)) obj children
                 document h).
  { intros. cbn [rules new_Markdown default_Markdown].
    now rewrite (first_match_skips_rules_without_serialize _ _ _ _ _ _ Hopts). }
  assert (Hleaf : forall l h,
             serializeLeaves (new_Markdown encode options_rules) l h
             = serializeLeaves (default_Markdown encode) l h).
  { intros l h. unfold serializeLeaves, serializeString, bind.
    rewrite Hrules.
    destruct (first_match (rules (default_Markdown encode)) _ _ _ h)
      as [[t|e] h1]; [| reflexivity].
    apply reduceM_ext. intros. apply Hrules. }
  assert (Hnode : forall (n : Node) (parent : Parent) (h : string),
             serializeNode (new_Markdown encode options_rules) n parent h
             = serializeNode (default_Markdown encode) n parent h).
  { induction n as [leaves | ty data ns IH | ty data ns IH]
      using Node_nested_ind; intros parent h.
    - cbn [serializeNode]. unfold bind.
      rewrite (mapM_ext _ (serializeLeaves (default_Markdown encode))).
      + reflexivity.
      + apply Forall_forall. intros l _ h'. apply Hleaf.
    - cbn [serializeNode]. unfold bind.
      rewrite (mapM_ext _ (fun n => serializeNode (default_Markdown encode) n
                                      (ParentNode ty))).
      + destruct (mapM _ ns h) as [[rs|e] h1]; [| reflexivity].
        now rewrite Hrules.
      + eapply Forall_impl; [exact IH |]. intros n Hn h'. apply Hn.
    - cbn [serializeNode]. unfold bind.
      rewrite (mapM_ext _ (fun n => serializeNode (default_Markdown encode) n
                                      (ParentNode ty))).
      + destruct (mapM _ ns h) as [[rs|e] h1]; [| reflexivity].
        now rewrite Hrules.
      + eapply Forall_impl; [exact IH |]. intros n Hn h'. apply Hn. }
  split; [exact Hnode |].
  intros document_nodes h. unfold serialize, bind.
  rewrite (mapM_ext _ (fun node => serializeNode (default_Markdown encode) node
                                     ParentDocument)).
  - reflexivity.
  - apply Forall_forall. intros n _ h'. apply Hnode.
Qed.

(** ** Errors *)

Lemma mapM_app_thrown {A B : Type} (f : A -> M B) (before after : list A)
  (a : A) (h h1 h2 : string) (bs : list B) (e : error) :
  mapM f before h = (Returned bs, h1) ->
  f a h1 = (Thrown e, h2) ->
  mapM f (before ++ a :: after)%list h = (Thrown e, h2).
Proof.
  revert h bs. induction before as [|b before IH]; intros h bs Hb Ha.
  - injection Hb as _ <-. cbn [List.app mapM]. unfold bind. now rewrite Ha.
  - cbn [List.app mapM] in *. fold (mapM f) in *. unfold bind in *.
    destruct (f b h) as [[b'|e'] h'] eqn:Hfb; [| discriminate].
    destruct (mapM f before h') as [[bs'|e'] h''] eqn:Hrest; [| discriminate].
    injection Hb as _ <-. now rewrite (IH _ _ Hrest Ha).
Qed.

(** X8: an error is not caught anywhere. When the nodes in front of a
    node render and that node raises, the parent block raises the same
    error, and so does [serialize] when the node stands at the top level;
    the nodes behind it are not rendered, and [tableHeader] stays as it was
    when the error was raised. *)
Theorem error_aborts_the_rendering :
  forall (List_toString : list value -> string) (this : Markdown)
         (before after : list Node) (n : Node) (h h1 h2 : string)
         (rs : list rendered) (e : error),
    (forall (ty : string) (data : gmap string value) (parent : Parent),
        mapM (fun c => serializeNode this c (ParentNode ty)) before h
        = (Returned rs, h1) ->
        serializeNode this n (ParentNode ty) h1 = (Thrown e, h2) ->
        serializeNode this (Block ty data (before ++ n :: after)) parent h
        = (Thrown e, h2))
    /\ (mapM (fun c => serializeNode this c ParentDocument) before h
        = (Returned rs, h1) ->
        serializeNode this n ParentDocument h1 = (Thrown e, h2) ->
        serialize List_toString this (before ++ n :: after) h
        = (Thrown e, h2)).
Proof.
  intros List_toString this before after n h h1 h2 rs e. split.
  - intros ty data parent Hb Hn. apply serializeNode_Block_thrown.
    exact (mapM_app_thrown _ _ _ _ _ _ _ _ _ Hb Hn).
  - intros Hb Hn. unfold serialize.
    apply bind_thrown. exact (mapM_app_thrown _ _ _ _ _ _ _ _ _ Hb Hn).
Qed.

(** ** What the built-in rules do to [tableHeader], and when they raise *)

Section BuiltinRules.

Variable encode : value -> string.

Abbreviation md := (default_Markdown encode).

Lemma keeps_ret {A : Type} (a : A) : keeps_tableHeader (ret a).
Proof. intros h. reflexivity. Qed.

Lemma keeps_throw {A : Type} (e : error) : keeps_tableHeader (@throw A e).
Proof. intros h. reflexivity. Qed.

Lemma keeps_bind {A B : Type} (c : M A) (k : A -> M B) :
  keeps_tableHeader c -> (forall a, keeps_tableHeader (k a)) ->
  keeps_tableHeader (bind c k).
Proof.
  intros Hc Hk h. unfold bind. specialize (Hc h).
  destruct (c h) as [[a|e] h1]; cbn [snd] in Hc; subst h1; [apply Hk | reflexivity].
Qed.

Lemma keeps_as_string (v : value) : keeps_tableHeader (as_string v).
Proof. destruct v; intros h; reflexivity. Qed.

Lemma returns_ret {A : Type} (a : A) : returns (ret a).
Proof. intros h. now exists a, h. Qed.

Lemma returns_bind {A B : Type} (c : M A) (k : A -> M B) :
  returns c -> (forall a, returns (k a)) -> returns (bind c k).
Proof.
  intros Hc Hk h. unfold bind. destruct (Hc h) as (a & h1 & ->). apply Hk.
Qed.

(** A property of every case body that can be selected, and of the default,
    is a property of the [switch]. *)
Lemma switch_cases {A : Type} (P : A -> Prop) (v : value)
  (cases : list (string * A)) (dflt : A) :
  Forall (fun cb => is_string v (fst cb) = true -> P (snd cb)) cases ->
  P dflt ->
  P (switch v cases dflt).
Proof.
  intros Hcases Hdflt. induction Hcases as [|[label body] cases Hcb _ IH];
    [exact Hdflt |].
  cbn [switch]. destruct (is_string v label) eqn:Hv; [now apply Hcb | exact IH].
Qed.

Lemma keeps_formatSoftBreak (children : value) :
  keeps_tableHeader (formatSoftBreak children).
Proof.
  unfold formatSoftBreak. apply keeps_bind; [apply keeps_as_string |].
  intros c. apply keeps_ret.
Qed.

Lemma keeps_soft_broken (children : value) (k : string -> value) :
  keeps_tableHeader (c <- formatSoftBreak children ;; ret (k c)).
Proof.
  apply keeps_bind; [apply keeps_formatSoftBreak | intros c; apply keeps_ret].
Qed.

Lemma keeps_list_block (parent : Parent) (children : value) :
  keeps_tableHeader (list_block parent children).
Proof.
  unfold list_block, indent_lines. destruct (is_document parent);
    [apply keeps_ret |].
  apply keeps_bind; [| intros c; apply keeps_ret].
  apply keeps_bind; [apply keeps_as_string | intros c; apply keeps_ret].
Qed.

Lemma keeps_rule_block (ty : string) (data : gmap string value)
  (ns : list Node) (children : value) (document : option Parent) :
  is_table_family ty = false ->
  keeps_tableHeader
    (rule_block encode (NodeObj (Block ty data ns)) children document).
Proof.
  intros Hty. unfold is_table_family in Hty.
  apply orb_false_elim in Hty as [Hty Hrow].
  apply orb_false_elim in Hty as [Htable Hhead].
  unfold rule_block. cbn [kind String.eqb Ascii.eqb Bool.eqb negb obj_type].
  apply keeps_bind; [destruct document; [apply keeps_ret | apply keeps_throw] |].
  intros parent. apply switch_cases; [| apply keeps_ret].
  repeat (apply List.Forall_cons; [cbn [fst snd is_string]; intros Hcase |]);
    [ .. | apply List.Forall_nil ];
    try congruence;
    try apply keeps_ret;
    try apply keeps_soft_broken;
    try apply keeps_list_block.
  - destruct (is_string (parent_type parent) "list-item");
      apply keeps_soft_broken.
  - apply switch_cases;
      [ repeat (apply List.Forall_cons; [cbn [fst snd]; intros _ |]);
        [ .. | apply List.Forall_nil ]; apply keeps_soft_broken
      | apply keeps_soft_broken ].
  - apply keeps_bind; [| intros s; apply keeps_ret].
    unfold formatLinkBar.
    apply keeps_bind; [apply keeps_as_string | intros d; apply keeps_ret].
Qed.

Lemma keeps_rule_string (obj : Obj) (children : value)
  (document : option Parent) :
  keeps_tableHeader (rule_string obj children document).
Proof.
  unfold rule_string. destruct (String.eqb (kind obj) "string"); apply keeps_ret.
Qed.

Lemma keeps_rule_inline (obj : Obj) (children : value)
  (document : option Parent) :
  keeps_tableHeader (rule_inline encode obj children document).
Proof.
  unfold rule_inline. destruct (negb (String.eqb (kind obj) "inline"));
    [apply keeps_ret |].
  apply switch_cases; [| apply keeps_ret].
  repeat (apply List.Forall_cons; [cbn [fst snd]; intros _ |]);
    [ .. | apply List.Forall_nil ]; try apply keeps_ret.
  apply keeps_bind; [apply keeps_as_string | intros c; apply keeps_ret].
Qed.

Lemma keeps_rule_mark (obj : Obj) (children : value)
  (document : option Parent) :
  keeps_tableHeader (rule_mark obj children document).
Proof.
  unfold rule_mark. destruct (negb (String.eqb (kind obj) "mark"));
    [apply keeps_ret |].
  apply switch_cases; [| apply keeps_ret].
  repeat (apply List.Forall_cons; [cbn [fst snd]; intros _ |]);
    [ .. | apply List.Forall_nil ]; apply keeps_ret.
Qed.

Lemma keeps_first_match (rs : list Rule) (obj : Obj) (children : value)
  (document : option Parent) :
  Forall (fun r => forall f, serialize_fn r = Some f ->
                             keeps_tableHeader (f obj children document)) rs ->
  keeps_tableHeader (first_match rs obj children document).
Proof.
  induction 1 as [|rule rs Hrule _ IH]; cbn [first_match]; [apply keeps_ret |].
  destruct (serialize_fn rule) as [f|]; [| exact IH].
  apply keeps_bind; [now apply Hrule |].
  intros r. destruct (truthy r); [apply keeps_ret | exact IH].
Qed.

Lemma keeps_mapM {A B : Type} (f : A -> M B) (l : list A) :
  Forall (fun a => keeps_tableHeader (f a)) l ->
  keeps_tableHeader (mapM f l).
Proof.
  induction 1 as [|a l Ha _ IH]; cbn [mapM]; [apply keeps_ret |].
  fold (mapM f). apply keeps_bind; [exact Ha |].
  intros b. apply keeps_bind; [exact IH | intros bs; apply keeps_ret].
Qed.

(** The rules of an inline node and of a block outside the table family
    end with the [tableHeader] they started from. *)
Lemma keeps_node_rules (n : Node) (children : value)
  (document : option Parent) :
  match n with
  | Block ty _ _ => is_table_family ty = false
  | _ => True
  end ->
  keeps_tableHeader (first_match (rules md) (NodeObj n) children document).
Proof.
  intros Hn. cbn [rules default_Markdown new_Markdown List.app RULES].
  apply keeps_first_match.
  repeat (apply List.Forall_cons; [cbn [serialize_fn]; intros f [= <-] |]);
    [ .. | apply List.Forall_nil ].
  - apply keeps_rule_string.
  - destruct n as [leaves | ty data ns | ty data ns].
    + intros h. reflexivity.
    + now apply keeps_rule_block.
    + intros h. reflexivity.
  - apply keeps_rule_inline.
  - apply keeps_rule_mark.
Qed.

(** X9: only the table family touches [tableHeader]. Rendering a tree
    that holds no table, table-head or table-row block ends, whether it
    returns or raises, with the [tableHeader] it started from. *)
Theorem only_table_family_touches_tableHeader :
  forall (n : Node) (parent : Parent) (h : string),
    no_table_family n = true ->
    snd (serializeNode md n parent h) = h.
Proof.
  intros n parent h Hn. revert parent h.
  change (forall parent, keeps_tableHeader (serializeNode md n parent)).
  induction n as [leaves | ty data ns IH | ty data ns IH] using Node_nested_ind;
    intros parent.
  - intros h. now rewrite serializeNode_Text.
  - cbn [no_table_family] in Hn. apply andb_prop in Hn as [Hty Hns].
    apply negb_true_iff in Hty.
    cbn [serializeNode]. apply keeps_bind.
    + apply keeps_mapM. rewrite forallb_forall in Hns.
      apply Forall_forall. intros c Hc.
      rewrite Forall_forall in IH. apply (IH c Hc).
      apply Hns. now apply list_elem_of_In.
    + intros rs. apply keeps_bind; [| intros r; apply keeps_ret].
      now apply (keeps_node_rules (Block ty data ns)).
  - cbn [no_table_family] in Hn.
    cbn [serializeNode]. apply keeps_bind.
    + apply keeps_mapM. rewrite forallb_forall in Hn.
      apply Forall_forall. intros c Hc.
      rewrite Forall_forall in IH. apply (IH c Hc).
      apply Hn. now apply list_elem_of_In.
    + intros rs. apply keeps_bind; [| intros r; apply keeps_ret].
      now apply (keeps_node_rules (Inline ty data ns)).
Qed.

Lemma returns_get : returns get_tableHeader.
Proof. intros h. now exists h, h. Qed.

Lemma returns_set (h' : string) : returns (set_tableHeader h').
Proof. intros h. now exists tt, h'. Qed.

Lemma returns_as_string (c : string) : returns (as_string (VStr c)).
Proof. apply returns_ret. Qed.

Ltac returns_steps :=
  repeat first
    [ apply returns_ret
    | apply returns_get
    | apply returns_set
    | apply returns_as_string
    | apply returns_bind; [| intros ?]
    | match goal with
      | |- returns (if ?b then _ else _) => destruct b
      end ].

Lemma returns_rule_block (ty : string) (data : gmap string value)
  (ns : list Node) (c : string) (parent : Parent) :
  String.eqb ty "linkbar" = false \/ has_string_description data = true ->
  returns (rule_block encode (NodeObj (Block ty data ns)) (VStr c) (Some parent)).
Proof.
  intros Hlinkbar.
  unfold rule_block. cbn [kind String.eqb Ascii.eqb Bool.eqb negb obj_type getParent].
  apply returns_bind; [apply returns_ret |].
  intros p. apply switch_cases; [| apply returns_ret].
  repeat (apply List.Forall_cons; [cbn [fst snd is_string]; intros Hcase |]);
    [ .. | apply List.Forall_nil ];
    unfold formatSoftBreak, list_block, indent_lines, heading;
    try solve [returns_steps].
  - apply switch_cases;
      [ repeat (apply List.Forall_cons; [cbn [fst snd]; intros _ |]);
        [ .. | apply List.Forall_nil ]
      | ]; returns_steps.
  - destruct Hlinkbar as [Hty | Hdesc]; [congruence |].
    unfold has_string_description in Hdesc.
    unfold formatLinkBar, getIn_data.
    destruct (data !! "description") as [[| | |d]|]; try discriminate Hdesc.
    cbn [default]. returns_steps.
Qed.

Lemma returns_rule_inline (obj : Obj) (c : string) (document : option Parent) :
  returns (rule_inline encode obj (VStr c) document).
Proof.
  unfold rule_inline. destruct (negb (String.eqb (kind obj) "inline"));
    [apply returns_ret |].
  apply switch_cases; [| apply returns_ret].
  repeat (apply List.Forall_cons; [cbn [fst snd]; intros _ |]);
    [ .. | apply List.Forall_nil ]; returns_steps.
Qed.

Lemma returns_rule_mark (obj : Obj) (children : value)
  (document : option Parent) :
  returns (rule_mark obj children document).
Proof.
  unfold rule_mark. destruct (negb (String.eqb (kind obj) "mark"));
    [apply returns_ret |].
  apply switch_cases; [| apply returns_ret].
  repeat (apply List.Forall_cons; [cbn [fst snd]; intros _ |]);
    [ .. | apply List.Forall_nil ]; apply returns_ret.
Qed.

Lemma returns_first_match (rs : list Rule) (obj : Obj) (children : value)
  (document : option Parent) :
  Forall (fun r => forall f, serialize_fn r = Some f ->
                             returns (f obj children document)) rs ->
  returns (first_match rs obj children document).
Proof.
  induction 1 as [|rule rs Hrule _ IH]; cbn [first_match]; [apply returns_ret |].
  destruct (serialize_fn rule) as [f|]; [| exact IH].
  apply returns_bind; [now apply Hrule |].
  intros r. destruct (truthy r); [apply returns_ret | exact IH].
Qed.

Lemma returns_mapM {A B : Type} (f : A -> M B) (l : list A) :
  Forall (fun a => returns (f a)) l -> returns (mapM f l).
Proof.
  induction 1 as [|a l Ha _ IH]; cbn [mapM]; [apply returns_ret |].
  fold (mapM f). apply returns_bind; [exact Ha |].
  intros b. apply returns_bind; [exact IH | intros bs; apply returns_ret].
Qed.

Lemma returns_node_rules (n : Node) (c : string) (parent : Parent) :
  match n with
  | Block ty data _ =>
      String.eqb ty "linkbar" = false \/ has_string_description data = true
  | _ => True
  end ->
  returns (first_match (rules md) (NodeObj n) (VStr c) (Some parent)).
Proof.
  intros Hn. cbn [rules default_Markdown new_Markdown List.app RULES].
  apply returns_first_match.
  repeat (apply List.Forall_cons; [cbn [serialize_fn]; intros f [= <-] |]);
    [ .. | apply List.Forall_nil ].
  - unfold rule_string. destruct (String.eqb (kind (NodeObj n)) "string");
      apply returns_ret.
  - destruct n as [leaves | ty data ns | ty data ns].
    + apply returns_ret.
    + now apply returns_rule_block.
    + apply returns_ret.
  - apply returns_rule_inline.
  - apply returns_rule_mark.
Qed.

Lemma returns_serializeNode (n : Node) (parent : Parent) :
  linkbars_described n = true -> returns (serializeNode md n parent).
Proof.
  intros Hn. revert parent.
  induction n as [leaves | ty data ns IH | ty data ns IH] using Node_nested_ind;
    intros parent.
  - intros h. rewrite serializeNode_Text. now eexists _, _.
  - cbn [linkbars_described] in Hn. apply andb_prop in Hn as [Hty Hns].
    cbn [serializeNode]. apply returns_bind.
    + apply returns_mapM. rewrite forallb_forall in Hns.
      apply Forall_forall. intros c Hc.
      rewrite Forall_forall in IH. apply (IH c Hc).
      apply Hns. now apply list_elem_of_In.
    + intros rs. apply returns_bind; [| intros r; apply returns_ret].
      apply (returns_node_rules (Block ty data ns)).
      apply orb_prop in Hty as [Hty | Hdesc]; [left | now right].
      now apply negb_true_iff in Hty.
  - cbn [linkbars_described] in Hn.
    cbn [serializeNode]. apply returns_bind.
    + apply returns_mapM. rewrite forallb_forall in Hn.
      apply Forall_forall. intros c Hc.
      rewrite Forall_forall in IH. apply (IH c Hc).
      apply Hn. now apply list_elem_of_In.
    + intros rs. apply returns_bind; [| intros r; apply returns_ret].
      now apply (returns_node_rules (Inline ty data ns)).
Qed.

(** *** The encoder is consulted on strings only *)

Lemma switch_ext {A : Type} (v : value) (cs1 cs2 : list (string * A))
  (dflt : A) :
  Forall2 (fun a b => fst a = fst b
                      /\ (is_string v (fst a) = true -> snd a = snd b))
    cs1 cs2 ->
  switch v cs1 dflt = switch v cs2 dflt.
Proof.
  induction 1 as [|[l1 b1] [l2 b2] cs1 cs2 [Hl Hb] _ IH]; [reflexivity |].
  cbn [fst snd] in Hl, Hb. subst l2. cbn [switch].
  destruct (is_string v l1); [now apply Hb | exact IH].
Qed.

Lemma encoder_gets_string_spec (data : gmap string value) (key : string) :
  encoder_gets_string data key = true ->
  exists s, js_or (default VUndef (data !! key)) (VStr "") = VStr s.
Proof.
  unfold encoder_gets_string.
  destruct (js_or (default VUndef (data !! key)) (VStr "")) as [| | |s];
    try discriminate. intros _. now exists s.
Qed.

Lemma first_match_ext (rs1 rs2 : list Rule) (obj : Obj) (children : value)
  (document : option Parent) :
  Forall2 (fun r1 r2 =>
             match serialize_fn r1, serialize_fn r2 with
             | Some f1, Some f2 =>
                 forall h, f1 obj children document h = f2 obj children document h
             | None, None => True
             | _, _ => False
             end) rs1 rs2 ->
  forall h, first_match rs1 obj children document h
            = first_match rs2 obj children document h.
Proof.
  induction 1 as [|r1 r2 rs1 rs2 Hr _ IH]; intros h; [reflexivity |].
  cbn [first_match].
  destruct (serialize_fn r1) as [f1|], (serialize_fn r2) as [f2|];
    try contradiction; [| apply IH].
  unfold bind. rewrite Hr.
  destruct (f2 obj children document h) as [[r|e] h1]; [| reflexivity].
  destruct (truthy r); [reflexivity | apply IH].
Qed.

Section TwoEncoders.

Variable encode' : value -> string.

Hypothesis same_on_strings : forall s, encode' (VStr s) = encode (VStr s).

Lemma rule_block_same (n : Node) (c : string) (parent : Parent) (h : string) :
  encoded_fields_are_strings_here n = true ->
  rule_block encode' (NodeObj n) (VStr c) (Some parent) h
  = rule_block encode (NodeObj n) (VStr c) (Some parent) h.
Proof.
  intros Hn. destruct n as [leaves | ty data ns | ty data ns];
    [reflexivity | | reflexivity].
  cbn [encoded_fields_are_strings_here] in Hn.
  apply andb_prop in Hn as [Himage Hlinkbar].
  unfold rule_block.
  cbn [kind String.eqb Ascii.eqb Bool.eqb negb obj_type getParent].
  unfold bind at 1 3. cbn [ret].
  apply (f_equal (fun m : M value => m h)).
  apply switch_ext.
  repeat (apply List.Forall2_cons;
          [split; [reflexivity | cbn [fst snd is_string]; intros Hcase] |]);
    [ .. | apply List.Forall2_nil ]; try reflexivity.
  - rewrite Hcase in Himage. cbn [negb orb] in Himage.
    apply encoder_gets_string_spec in Himage as [s Hs].
    cbn [getIn_data]. now rewrite Hs, same_on_strings.
  - rewrite Hcase in Hlinkbar. cbn [negb orb] in Hlinkbar.
    apply andb_prop in Hlinkbar as [Hi Hu].
    apply encoder_gets_string_spec in Hi as [si Hsi].
    apply encoder_gets_string_spec in Hu as [su Hsu].
    cbn [getIn_data]. now rewrite Hsi, Hsu, !same_on_strings.
Qed.

Lemma rule_inline_same (n : Node) (c : string) (parent : Parent) (h : string) :
  encoded_fields_are_strings_here n = true ->
  rule_inline encode' (NodeObj n) (VStr c) (Some parent) h
  = rule_inline encode (NodeObj n) (VStr c) (Some parent) h.
Proof.
  intros Hn. destruct n as [leaves | ty data ns | ty data ns];
    [reflexivity | reflexivity |].
  cbn [encoded_fields_are_strings_here] in Hn.
  unfold rule_inline.
  cbn [kind String.eqb Ascii.eqb Bool.eqb negb obj_type].
  apply (f_equal (fun m : M value => m h)).
  apply switch_ext.
  repeat (apply List.Forall2_cons;
          [split; [reflexivity | cbn [fst snd is_string]; intros Hcase] |]);
    [ .. | apply List.Forall2_nil ]; try reflexivity.
  rewrite Hcase in Hn. cbn [negb orb] in Hn.
  apply encoder_gets_string_spec in Hn as [s Hs].
  cbn [getIn_data]. now rewrite Hs, same_on_strings.
Qed.

Lemma node_rules_same (n : Node) (c : string) (parent : Parent) (h : string) :
  encoded_fields_are_strings_here n = true ->
  first_match (rules (default_Markdown encode')) (NodeObj n) (VStr c)
    (Some parent) h
  = first_match (rules md) (NodeObj n) (VStr c) (Some parent) h.
Proof.
  intros Hn. cbn [rules default_Markdown new_Markdown List.app RULES].
  apply first_match_ext.
  repeat (apply List.Forall2_cons; [cbn [serialize_fn] |]);
    [ .. | apply List.Forall2_nil ]; try reflexivity.
  - intros h'. now apply rule_block_same.
  - intros h'. now apply rule_inline_same.
Qed.

Lemma serializeNode_same (n : Node) (parent : Parent) (h : string) :
  encoded_fields_are_strings n = true ->
  serializeNode (default_Markdown encode') n parent h
  = serializeNode md n parent h.
Proof.
  intros Hn. revert parent h.
  induction n as [leaves | ty data ns IH | ty data ns IH] using Node_nested_ind;
    intros parent h.
  - now rewrite !serializeNode_Text.
  - cbn [encoded_fields_are_strings] in Hn. apply andb_prop in Hn as [Hhere Hns].
    cbn [serializeNode]. unfold bind.
    rewrite (mapM_ext _ (fun n => serializeNode md n (ParentNode ty))).
    + destruct (mapM _ ns h) as [[rs|e] h1]; [| reflexivity].
      now rewrite (node_rules_same (Block ty data ns) _ _ _ Hhere).
    + rewrite forallb_forall in Hns. apply Forall_forall. intros c Hc h'.
      rewrite Forall_forall in IH. apply (IH c Hc).
      apply Hns. now apply list_elem_of_In.
  - cbn [encoded_fields_are_strings] in Hn. apply andb_prop in Hn as [Hhere Hns].
    cbn [serializeNode]. unfold bind.
    rewrite (mapM_ext _ (fun n => serializeNode md n (ParentNode ty))).
    + destruct (mapM _ ns h) as [[rs|e] h1]; [| reflexivity].
      now rewrite (node_rules_same (Inline ty data ns) _ _ _ Hhere).
    + rewrite forallb_forall in Hns. apply Forall_forall. intros c Hc h'.
      rewrite Forall_forall in IH. apply (IH c Hc).
      apply Hns. now apply list_elem_of_In.
Qed.

End TwoEncoders.

(** X10: when the encoder is given strings only, nothing but a linkbar
    can raise. Take a tree in which every field the rules hand to the
    encoder ([src] of an image, [image] and [url] of a linkbar, [href] of
    a link) is absent, falsy or a string, and in which every linkbar block
    has a string [description]. Then rendering consults the encoder on
    strings only: any two encoders that agree on strings give the same
    rendering; and, the encoder returning a string for each of those
    strings, the tree renders to a result from every [tableHeader], and a
    document of such trees serializes to a text. What the encoder does on
    other values is not assumed: the theorem says nothing of a tree that
    hands it one (an image whose [src] is [true]). *)
Theorem rendering_returns_when_the_encoder_gets_strings :
  forall (List_toString : list value -> string),
    (forall (n : Node) (parent : Parent) (h : string),
        linkbars_described n = true ->
        encoded_fields_are_strings n = true ->
        (exists (r : rendered) (h' : string),
            serializeNode md n parent h = (Returned r, h'))
        /\ (forall encode' : value -> string,
               (forall s, encode' (VStr s) = encode (VStr s)) ->
               serializeNode (default_Markdown encode') n parent h
               = serializeNode md n parent h))
    /\ (forall (document_nodes : list Node) (h : string),
           forallb linkbars_described document_nodes = true ->
           forallb encoded_fields_are_strings document_nodes = true ->
           (exists (s h' : string),
               serialize List_toString md document_nodes h = (Returned s, h'))
           /\ (forall encode' : value -> string,
                  (forall s, encode' (VStr s) = encode (VStr s)) ->
                  serialize List_toString (default_Markdown encode')
                    document_nodes h
                  = serialize List_toString md document_nodes h)).
Proof.
  intros List_toString. split.
  - intros n parent h Hn Henc. split.
    + now apply returns_serializeNode.
    + intros encode' Hsame. now apply serializeNode_same.
  - intros document_nodes h Hns Henc. split.
    + unfold serialize.
      apply returns_bind; [| intros elements; apply returns_ret].
      apply returns_mapM. rewrite forallb_forall in Hns.
      apply Forall_forall. intros c Hc. apply returns_serializeNode.
      apply Hns. now apply list_elem_of_In.
    + intros encode' Hsame. unfold serialize, bind.
      rewrite (mapM_ext _ (fun node => serializeNode md node ParentDocument)).
      * reflexivity.
      * rewrite forallb_forall in Henc. apply Forall_forall. intros c Hc h'.
        apply serializeNode_same; [exact Hsame |].
        apply Henc. now apply list_elem_of_In.
Qed.

(** X11: a linkbar block whose [description] is absent or is not a string
    raises [TypeError] once its children are rendered, whatever its other
    fields hold. With a string description it renders the fenced block:
    the url (then the image, when the encoded image is not empty), the
    title, the description without its bracket groups, the domain; absent
    title and domain come out as the text "undefined". *)
Theorem linkbar_needs_a_string_description :
  forall (data : gmap string value) (ns : list Node) (parent : Parent)
         (h h1 : string) (rs : list rendered),
    mapM (fun n => serializeNode md n (ParentNode "linkbar")) ns h
    = (Returned rs, h1) ->
    (has_string_description data = false ->
     serializeNode md (Block "linkbar" data ns) parent h = (Thrown TypeError, h1))
    /\ (forall d : string,
           data !! "description" = Some (VStr d) ->
           let img := encode (js_or (default VUndef (data !! "image")) (VStr "")) in
           let url := encode (js_or (default VUndef (data !! "url")) (VStr "")) in
           serializeNode md (Block "linkbar" data ns) parent h
           = (Returned
                (Single
                   (VStr ("%%%" ++ nl
                          ++ (if is_empty img then url else url ++ nl ++ img)
                          ++ nl
                          ++ to_string (default VUndef (data !! "title")) ++ nl
                          ++ strip_brackets d ++ nl
                          ++ to_string (default VUndef (data !! "domain")) ++ nl
                          ++ "%%%" ++ nl))),
              h1)).
Proof.
  intros data ns parent h h1 rs Hc. split.
  - intros Hdesc. rewrite (serializeNode_Block _ _ _ _ _ _ _ _ Hc).
    unfold has_string_description in Hdesc.
    cbn -[String.append]. unfold bind, ret, formatLinkBar, bind.
    cbn -[String.append].
    destruct (data !! "description") as [[| | |d]|]; try discriminate Hdesc;
      reflexivity.
  - intros d Hd img url. rewrite (serializeNode_Block _ _ _ _ _ _ _ _ Hc).
    cbn -[String.append strip_brackets]. unfold bind, ret, formatLinkBar, bind.
    cbn -[String.append strip_brackets]. rewrite Hd.
    cbn -[String.append strip_brackets].
    fold img url. destruct (is_empty img); reflexivity.
Qed.

End BuiltinRules.

(** ** The description of a linkbar *)

Lemma strip_brackets_from_copies (a rest : string) :
  all_chars not_open_bracket a = true ->
  strip_brackets_from 0 (a ++ rest) = a ++ strip_brackets_from 0 rest.
Proof.
  induction a as [|c a IH]; [reflexivity |].
  cbn [all_chars]. intros [Hc Ha]%andb_prop.
  cbn [String.append strip_brackets_from].
  unfold not_open_bracket in Hc. apply negb_true_iff in Hc. rewrite Hc.
  now rewrite IH.
Qed.

Lemma close_dist_group (b rest : string) :
  all_chars inside_bracket_group b = true ->
  close_dist (b ++ String "]" rest) = Some (String.length b).
Proof.
  induction b as [|c b IH]; [reflexivity |].
  cbn [all_chars]. intros [Hc Hb]%andb_prop.
  unfold inside_bracket_group, not_close_bracket in Hc.
  apply andb_prop in Hc as [Hc Hlt]. apply negb_true_iff in Hc, Hlt.
  cbn [String.append close_dist String.length]. rewrite Hc, Hlt.
  now rewrite (IH Hb).
Qed.

Lemma close_dist_unclosed (b : string) :
  all_chars not_close_bracket b = true -> close_dist b = None.
Proof.
  induction b as [|c b IH]; [reflexivity |].
  cbn [all_chars]. intros [Hc Hb]%andb_prop.
  unfold not_close_bracket in Hc. apply negb_true_iff in Hc.
  cbn [close_dist]. rewrite Hc.
  destruct (is_line_terminator c); [reflexivity |]. now rewrite (IH Hb).
Qed.

Lemma strip_brackets_from_skips (b rest : string) :
  strip_brackets_from (S (String.length b)) (b ++ String "]" rest)
  = strip_brackets_from 0 rest.
Proof.
  induction b as [|c b IH]; [reflexivity |].
  cbn [String.append String.length strip_brackets_from]. exact IH.
Qed.

(** X12: what the linkbar rule deletes from a description. A text with no
    opening bracket is copied; a group made of an opening bracket, a run of
    characters without closing bracket or line break, and a closing
    bracket is deleted whole; an opening bracket with no closing bracket
    behind it is kept. *)
Theorem strip_brackets_deletes_groups_only :
  forall a b rest : string,
    all_chars not_open_bracket a = true ->
    (strip_brackets a = a)
    /\ (all_chars inside_bracket_group b = true ->
        strip_brackets (a ++ String "[" (b ++ String "]" rest))
        = a ++ strip_brackets rest)
    /\ (all_chars not_close_bracket rest = true ->
        strip_brackets (a ++ String "[" rest)
        = a ++ String "[" (strip_brackets rest)).
Proof.
  intros a b rest Ha. unfold strip_brackets. split; [| split].
  - rewrite <- (append_nil_r a) at 1.
    rewrite (strip_brackets_from_copies _ _ Ha). cbn. apply append_nil_r.
  - intros Hb. rewrite (strip_brackets_from_copies _ _ Ha).
    cbn [strip_brackets_from Ascii.eqb Bool.eqb].
    now rewrite (close_dist_group _ _ Hb), strip_brackets_from_skips.
  - intros Hrest. rewrite (strip_brackets_from_copies _ _ Ha).
    cbn [strip_brackets_from Ascii.eqb Bool.eqb].
    now rewrite (close_dist_unclosed _ Hrest).
Qed.

(** ** Paragraphs, list items and soft breaks *)

Section Blocks.

Variable encode : value -> string.

Abbreviation md := (default_Markdown encode).

Lemma replace_char_nonempty (c : ascii) (r s : string) :
  is_empty r = false -> is_empty s = false ->
  is_empty (replace_char c r s) = false.
Proof.
  intros Hr. destruct s as [|x s]; [discriminate |]. intros _.
  cbn [replace_char]. apply is_empty_app_l. now destruct (Ascii.eqb x c).
Qed.

Lemma paragraph_renders (data : gmap string value) (ns : list Node)
  (parent : Parent) (h h1 : string) (rs : list rendered) :
  mapM (fun n => serializeNode md n (ParentNode "paragraph")) ns h
  = (Returned rs, h1) ->
  serializeNode md (Block "paragraph" data ns) parent h
  = (Returned
       (Single
          (if is_string (parent_type parent) "list-item"
           then (if is_empty (children_text rs) then VUndef
                 else VStr (replace_char LF ("  " ++ nl) (children_text rs)))
           else VStr (nl ++ replace_char LF ("  " ++ nl) (children_text rs)
                      ++ nl))),
     h1).
Proof.
  intros Hc.
  rewrite (serializeNode_Block _ _ _ _ _ _ _ _ Hc).
  cbn -[String.append replace_char]. unfold bind, ret.
  cbn -[String.append replace_char].
  destruct (is_string (parent_type parent) "list-item"); [| reflexivity].
  cbn -[String.append replace_char].
  destruct (is_empty (children_text rs)) eqn:He.
  - destruct (children_text rs); [reflexivity | discriminate].
  - now rewrite (replace_char_nonempty LF ("  " ++ nl) _ eq_refl He).
Qed.

(** X13: a paragraph renders its soft-broken children between two
    newlines, except under a list item, where it renders them bare; an
    empty paragraph therefore renders two newlines, but under a list item
    it renders nothing at all. *)
Theorem paragraph_wrapping_depends_on_parent :
  forall (data : gmap string value) (ns : list Node) (parent : Parent)
         (h h1 : string) (rs : list rendered),
    mapM (fun n => serializeNode md n (ParentNode "paragraph")) ns h
    = (Returned rs, h1) ->
    let body := replace_char LF ("  " ++ nl) (children_text rs) in
    serializeNode md (Block "paragraph" data ns) parent h
    = (Returned
         (Single
            (if is_string (parent_type parent) "list-item"
             then (if is_empty (children_text rs) then VUndef else VStr body)
             else VStr (nl ++ body ++ nl))),
       h1).
Proof.
  intros data ns parent h h1 rs Hc body. subst body.
  now apply paragraph_renders.
Qed.

Lemma soft_break_twice (s : string) :
  replace_char LF ("  " ++ nl) (replace_char LF ("  " ++ nl) s)
  = replace_char LF ("    " ++ nl) s.
Proof.
  induction s as [|c s IH]; [reflexivity |].
  cbn [replace_char]. rewrite replace_char_app, IH.
  unfold LF. destruct (Ascii.eqb c "010") eqn:Hc; [reflexivity |].
  cbn [replace_char]. unfold LF. now rewrite Hc.
Qed.

Lemma list_item_rule (data : gmap string value) (ns : list Node)
  (parent : Parent) (c h : string) :
  first_match (rules md) (NodeObj (Block "list-item" data ns)) (VStr c)
    (Some parent) h
  = (Returned
       (VStr (list_item_marker parent (default VUndef (data !! "checked"))
              ++ replace_char LF ("  " ++ nl) c ++ nl)),
     h).
Proof.
  unfold list_item_marker.
  destruct parent as [|pty]; [reflexivity |].
  cbn -[String.append replace_char]. unfold bind, ret.
  cbn -[String.append replace_char].
  destruct (String.eqb pty "ordered-list"); [reflexivity |].
  destruct (String.eqb pty "todo-list"); [| reflexivity].
  destruct (truthy (default VUndef (data !! "checked"))); reflexivity.
Qed.

(** X14: soft breaks compose. A list item that holds one paragraph formats
    the paragraph's text twice, once in the paragraph rule and once in the
    list-item rule, so every newline of the text ends up behind four
    spaces. *)
Theorem list_item_paragraph_breaks_twice :
  forall (data pdata : gmap string value) (ns : list Node) (parent : Parent)
         (h h1 : string) (rs : list rendered),
    mapM (fun n => serializeNode md n (ParentNode "paragraph")) ns h
    = (Returned rs, h1) ->
    serializeNode md (Block "list-item" data [Block "paragraph" pdata ns])
      parent h
    = (Returned
         (Single
            (VStr (list_item_marker parent (default VUndef (data !! "checked"))
                   ++ replace_char LF ("    " ++ nl) (children_text rs)
                   ++ nl))),
       h1).
Proof.
  intros data pdata ns parent h h1 rs Hc.
  pose proof (paragraph_renders pdata ns (ParentNode "list-item") h h1 rs Hc)
    as Hp.
  cbn [parent_type is_string String.eqb Ascii.eqb Bool.eqb] in Hp.
  assert (Hitem : mapM (fun n => serializeNode md n (ParentNode "list-item"))
                    [Block "paragraph" pdata ns] h
                  = (Returned
                       [Single (if is_empty (children_text rs) then VUndef
                                else VStr (replace_char LF ("  " ++ nl)
                                             (children_text rs)))],
                     h1)).
  { cbn [mapM]. now rewrite (bind_returned _ _ _ _ _ Hp). }
  rewrite (serializeNode_Block _ _ _ _ _ _ _ _ Hitem).
  unfold bind. rewrite list_item_rule. unfold ret.
  assert (Htext : children_text
                    [Single (if is_empty (children_text rs) then VUndef
                             else VStr (replace_char LF ("  " ++ nl)
                                          (children_text rs)))]
                  = replace_char LF ("  " ++ nl) (children_text rs)).
  { destruct (children_text rs); reflexivity. }
  now rewrite Htext, soft_break_twice.
Qed.

End Blocks.

(** ** Inline nodes and unknown types *)

Section Inlines.

Variable encode : value -> string.

Abbreviation md := (default_Markdown encode).

Lemma serializeNode_Inline (this : Markdown) (ty : string)
  (data : gmap string value) (ns : list Node) (parent : Parent)
  (h h1 : string) (rs : list rendered) :
  mapM (fun n => serializeNode this n (ParentNode ty)) ns h
  = (Returned rs, h1) ->
  serializeNode this (Inline ty data ns) parent h
  = (r <- first_match (rules this) (NodeObj (Inline ty data ns))
            (VStr (children_text rs)) (Some parent) ;;
     ret (Single r)) h1.
Proof.
  intros Hc. simpl. now rewrite (bind_returned _ _ _ _ _ Hc).
Qed.

(** X15: a mention renders from its data alone: nothing when [username]
    is absent or falsy, whatever [anonymous] holds; otherwise a bang (when
    [anonymous] is truthy) or an at sign, the username and a space. The
    rendered children are dropped. *)
Theorem mention_needs_a_username :
  forall (data : gmap string value) (ns : list Node) (parent : Parent)
         (h h1 : string) (rs : list rendered),
    mapM (fun n => serializeNode md n (ParentNode "mention")) ns h
    = (Returned rs, h1) ->
    let username := default VUndef (data !! "username") in
    let anonymous := default VUndef (data !! "anonymous") in
    serializeNode md (Inline "mention" data ns) parent h
    = (Returned
         (Single
            (if truthy username
             then VStr ((if truthy anonymous then "!" else "@")
                        ++ to_string username ++ " ")
             else VUndef)),
       h1).
Proof.
  intros data ns parent h h1 rs Hc username anonymous.
  rewrite (serializeNode_Inline _ _ _ _ _ _ _ _ Hc).
  cbn -[String.append]. unfold bind, ret. cbn -[String.append].
  fold username anonymous. unfold js_and, js_or.
  destruct (truthy username) eqn:Hu.
  - rewrite Hu. destruct (truthy anonymous) eqn:Ha.
    + rewrite Ha. reflexivity.
    + reflexivity.
  - reflexivity.
Qed.

Lemma all_space_app (s t : string) :
  all_space (s ++ t) = all_space s && all_space t.
Proof.
  induction s as [|c s IH]; [reflexivity |].
  cbn [String.append all_space]. now rewrite IH, andb_assoc.
Qed.

Lemma all_space_rev (s : string) : all_space (String.rev s) = all_space s.
Proof.
  induction s as [|c s IH]; [reflexivity |].
  change (String c s) with (String c "" ++ s) at 1.
  rewrite rev_append, all_space_app, IH. cbn [String.rev String.rev_app all_space].
  now rewrite andb_true_r, andb_comm.
Qed.

(** [trim] removes white space from both ends and nothing else. *)
Lemma trim_removes_surrounding_space_only (s : string) :
  exists w1 w2 : string,
    s = w1 ++ trim s ++ w2
    /\ all_space w1 = true /\ all_space w2 = true
    /\ starts_without_space (trim s) = true
    /\ starts_without_space (String.rev (trim s)) = true.
Proof.
  destruct (trim_start_removes_leading_space_only s) as (w1 & Hs & Hw1 & Hx).
  set (x := trim_start s) in *.
  destruct (trim_start_removes_leading_space_only (String.rev x))
    as (w & Hr & Hw & Hy).
  assert (Hx' : x = trim s ++ String.rev w).
  { unfold trim, trim_end. fold x.
    rewrite <- rev_append, <- Hr. symmetry. apply rev_involutive. }
  exists w1, (String.rev w). repeat split.
  - now rewrite <- Hx'.
  - exact Hw1.
  - now rewrite all_space_rev.
  - rewrite Hx' in Hx. destruct (trim s); [reflexivity | exact Hx].
  - unfold trim, trim_end. fold x. now rewrite rev_involutive.
Qed.

(** X16: a link always renders, also with no [href] and no text: its
    children text with the white space at both ends removed (and nothing
    else) between brackets, then the encoded [href], or the encoding of
    the empty string, between parentheses. *)
Theorem link_text_is_trimmed :
  forall (data : gmap string value) (ns : list Node) (parent : Parent)
         (h h1 : string) (rs : list rendered),
    mapM (fun n => serializeNode md n (ParentNode "link")) ns h
    = (Returned rs, h1) ->
    serializeNode md (Inline "link" data ns) parent h
    = (Returned
         (Single
            (VStr ("[" ++ trim (children_text rs) ++ "]("
                   ++ encode (js_or (default VUndef (data !! "href")) (VStr ""))
                   ++ ")"))),
       h1)
    /\ exists w1 w2 : string,
         children_text rs = w1 ++ trim (children_text rs) ++ w2
         /\ all_space w1 = true /\ all_space w2 = true
         /\ starts_without_space (trim (children_text rs)) = true
         /\ starts_without_space (String.rev (trim (children_text rs))) = true.
Proof.
  intros data ns parent h h1 rs Hc. split.
  - now rewrite (serializeNode_Inline _ _ _ _ _ _ _ _ Hc).
  - apply trim_removes_surrounding_space_only.
Qed.

Lemma switch_default {A : Type} (ty : string) (cases : list (string * A))
  (dflt : A) :
  not_among ty (List.map fst cases) = true ->
  switch (VStr ty) cases dflt = dflt.
Proof.
  unfold not_among. induction cases as [|[label body] cases IH]; [reflexivity |].
  cbn [List.map forallb fst switch is_string].
  intros [Hl Hrest]%andb_prop. apply negb_true_iff in Hl. rewrite Hl.
  now apply IH.
Qed.

(** X17: a block whose type is not a case of the block rule, and an
    inline whose type is not a case of the inline rule (a block type given
    to an inline included), render nothing: the children are rendered
    first, so what they do to [tableHeader] stays, but their text is
    dropped. *)
Theorem unknown_types_render_nothing :
  forall (ty : string) (data : gmap string value) (ns : list Node)
         (parent : Parent) (h h1 : string) (rs : list rendered),
    mapM (fun n => serializeNode md n (ParentNode ty)) ns h = (Returned rs, h1) ->
    (not_among ty block_types = true ->
     serializeNode md (Block ty data ns) parent h = (Returned (Single VUndef), h1))
    /\ (not_among ty inline_types = true ->
        serializeNode md (Inline ty data ns) parent h
        = (Returned (Single VUndef), h1)).
Proof.
  intros ty data ns parent h h1 rs Hc. split; intros Hty.
  - rewrite (serializeNode_Block _ _ _ _ _ _ _ _ Hc).
    cbn -[switch String.append]. unfold bind, ret.
    cbn -[switch String.append].
    rewrite switch_default; [reflexivity |].
    cbn [List.map fst]. unfold block_types, not_among in *.
    cbn [forallb] in *.
    repeat match goal with
           | H : _ && _ = true |- _ => apply andb_prop in H as [? ?]
           end.
    repeat (apply andb_true_intro; split); assumption.
  - rewrite (serializeNode_Inline _ _ _ _ _ _ _ _ Hc).
    cbn -[switch String.append]. unfold bind, ret.
    cbn -[switch String.append].
    rewrite switch_default; [reflexivity |]. exact Hty.
Qed.

End Inlines.

(** ** Whole tables *)

Section Tables.

Variable encode : value -> string.

Abbreviation md := (default_Markdown encode).

Lemma mapM_at {A B : Type} (f : A -> M B) (g : A -> B) (l : list A)
  (h : string) :
  (forall a, f a h = (Returned (g a), h)) ->
  mapM f l h = (Returned (List.map g l), h).
Proof.
  intros Hf. induction l as [|a l IH]; [reflexivity |].
  cbn [mapM List.map]. rewrite (bind_returned _ _ _ _ _ (Hf a)).
  fold (mapM f). rewrite (bind_returned _ _ _ _ _ IH). reflexivity.
Qed.

Lemma mapM_map {A B C : Type} (f : B -> M C) (g : A -> B) (l : list A)
  (h : string) :
  mapM f (List.map g l) h = mapM (fun a => f (g a)) l h.
Proof.
  revert h. induction l as [|a l IH]; intros h; [reflexivity |].
  cbn [List.map mapM]. fold (mapM f) (mapM (fun a => f (g a))).
  unfold bind. destruct (f (g a) h) as [[c|e] h1]; [| reflexivity].
  now rewrite IH.
Qed.

Lemma children_text_singles (l : list string) :
  children_text (List.map (fun s => Single (VStr s)) l)
  = List.fold_right String.append "" l.
Proof.
  induction l as [|s l IH]; [reflexivity |].
  cbn [List.map List.fold_right].
  change (Single (VStr s) :: List.map (fun s => Single (VStr s)) l)
    with (List.app [Single (VStr s)] (List.map (fun s => Single (VStr s)) l)).
  rewrite children_text_app, IH.
  unfold children_text, flatten. cbn. reflexivity.
Qed.

Lemma is_empty_app_r (s t : string) :
  is_empty t = false -> is_empty (s ++ t) = false.
Proof. destruct s; [trivial | reflexivity]. Qed.

Lemma align_marker_nonempty (v : value) : is_empty (align_marker v) = false.
Proof.
  unfold align_marker. cbn [switch].
  repeat (destruct (is_string v _); [reflexivity |]). reflexivity.
Qed.

Lemma header_markers_nonempty (heads : list (gmap string value * list Leaf)) :
  heads <> [] -> is_empty (header_markers heads) = false.
Proof.
  destruct heads as [|c heads]; [congruence |]. intros _.
  unfold header_markers. cbn [List.map List.fold_right].
  apply is_empty_app_l, align_marker_nonempty.
Qed.

Lemma text_cell_renders (c : gmap string value * list Leaf) (parent : Parent)
  (h : string) :
  serializeNode md (text_cell c) parent h
  = (Returned (Single (VStr (cell_text c))), h).
Proof.
  unfold text_cell, cell_text.
  assert (Hc : mapM (fun n => serializeNode md n (ParentNode "table-cell"))
                 [Text (snd c)] h
               = (Returned [Leaves (List.map leaf_value (snd c))], h)).
  { cbn [mapM].
    now rewrite (bind_returned _ _ _ _ _ (serializeNode_Text encode (snd c) _ h)). }
  now rewrite (serializeNode_Block _ _ _ _ _ _ _ _ Hc).
Qed.

Lemma data_row_renders
  (r : gmap string value * list (gmap string value * list Leaf))
  (parent : Parent) :
  serializeNode md (data_row r) parent ""
  = (Returned (Single (VStr (row_text (snd r) ++ "|" ++ nl))), "").
Proof.
  unfold data_row.
  rewrite (table_row encode (fst r) _ parent "" ""
             (List.map (fun s => Single (VStr s)) (List.map cell_text (snd r)))).
  - rewrite children_text_singles. cbn [is_empty]. unfold row_text.
    now rewrite <- !append_assoc, append_nil_r.
  - rewrite List.map_map, mapM_map.
    apply (mapM_at _ (fun c => Single (VStr (cell_text c)))).
    intros c. apply text_cell_renders.
Qed.

(** X18: a table made of one row of table-head cells holding text (at
    least one) and any number of rows of table-cells holding text renders
    as the head row, one separator line, and the data rows: the separator
    holds whatever was pending before the table followed by one marker per
    head cell, it comes once, right under the head row, and no data row
    prints a separator. The table leaves [tableHeader] empty. *)
Theorem text_table_has_one_separator_line :
  forall (data head_data : gmap string value)
         (heads : list (gmap string value * list Leaf))
         (rows : list (gmap string value
                       * list (gmap string value * list Leaf)))
         (parent : Parent) (h : string),
    heads <> [] ->
    serializeNode md (text_table data head_data heads rows) parent h
    = (Returned
         (Single
            (VStr ((row_text heads ++ "|" ++ nl)
                   ++ (h ++ header_markers heads ++ "|" ++ nl)
                   ++ data_rows_text rows))),
       "").
Proof.
  intros data head_data heads rows parent h Hheads. unfold text_table.
  assert (Hhead : serializeNode md
                    (Block "table-row" head_data (List.map text_head_cell heads))
                    (ParentNode "table") h
                  = (Returned
                       (Single
                          (VStr ((row_text heads ++ "|" ++ nl)
                                 ++ (h ++ header_markers heads ++ "|" ++ nl)))),
                     "")).
  { rewrite (table_row encode head_data _ (ParentNode "table") h
               (h ++ header_markers heads)
               (List.map (fun s => Single (VStr s)) (List.map cell_text heads))).
    - rewrite children_text_singles.
      rewrite (is_empty_app_r h _ (header_markers_nonempty heads Hheads)).
      fold (row_text heads). now rewrite !append_assoc.
    - rewrite List.map_map. apply text_head_cells_pending. }
  assert (Hrows : mapM (fun n => serializeNode md n (ParentNode "table"))
                    (Block "table-row" head_data (List.map text_head_cell heads)
                     :: List.map data_row rows) h
                  = (Returned
                       (List.map (fun s => Single (VStr s))
                          (((row_text heads ++ "|" ++ nl)
                            ++ (h ++ header_markers heads ++ "|" ++ nl))
                           :: List.map (fun r => row_text (snd r) ++ "|" ++ nl)
                                rows)),
                     "")).
  { assert (Hdata : mapM (fun n => serializeNode md n (ParentNode "table"))
                      (List.map data_row rows) ""
                    = (Returned
                         (List.map
                            (fun r => Single (VStr (row_text (snd r) ++ "|" ++ nl)))
                            rows),
                       "")).
    { rewrite mapM_map. apply mapM_at.
      intros r. apply data_row_renders. }
    cbn [mapM List.map].
    fold (mapM (fun n => serializeNode md n (ParentNode "table"))).
    rewrite (bind_returned _ _ _ _ _ Hhead), (bind_returned _ _ _ _ _ Hdata).
    now rewrite List.map_map. }
  rewrite (table_block encode _ _ _ _ _ _ Hrows).
  rewrite children_text_singles. cbn [List.fold_right].
  fold (data_rows_text rows).
  rewrite append_assoc.
  destruct (row_text heads); reflexivity.
Qed.

End Tables.

(** ** Instances of the further properties *)

Lemma escape_injective_on_a_sample :
  escape "x%" = escape "x%" /\ "x%" = "x%".
Proof.
  split; [reflexivity |].
  apply (proj1 (proj2 (escape_concat_injective_bounded "x%" "x%"))).
  reflexivity.
Defined.

Lemma three_unmarked_leaves :
  exists vs : list value,
    serializeNode Sample.md
      (Text [MoreSamples.leaf "a["; MoreSamples.leaf ""; MoreSamples.leaf "b"])
      ParentDocument ""
    = (Returned (Leaves vs), "")
    /\ children_text [Leaves vs] = "a\[b".
Proof.
  apply (unmarked_text_contributes_escaped_text Sample.encode
           [MoreSamples.leaf "a["; MoreSamples.leaf ""; MoreSamples.leaf "b"]
           ParentDocument "").
  repeat constructor.
Defined.

Lemma code_block_with_brackets :
  serializeNode Sample.md (Block "code" ∅ [Text [MoreSamples.leaf "a[0]"]])
    ParentDocument ""
  = (Returned (Single (VStr ("```" ++ nl ++ "a\[0\]" ++ nl ++ "```" ++ nl))), "").
Proof.
  etransitivity.
  - apply (code_block_text_is_escaped Sample.encode ∅ [MoreSamples.leaf "a[0]"]
             ParentDocument "").
    repeat constructor.
  - reflexivity.
Defined.

Lemma bold_then_code :
  serializeLeaves Sample.md
    {| text := "x"; marks := [Sample.bold; MoreSamples.code_mark] |} ""
  = (Returned (VStr "`**x**`"), "").
Proof.
  etransitivity.
  - apply (proj1 (known_marks_wrap_in_stored_order Sample.encode "x"
                    [Sample.bold; MoreSamples.code_mark] "" eq_refl
                    ltac:(repeat constructor; discriminate))).
  - reflexivity.
Defined.

Lemma underline_discards_bold_text :
  serializeLeaves Sample.md
    {| text := "abc";
       marks := [Sample.bold; Sample.underline; Sample.italic] |} ""
  = (Returned (VStr "*undefined*"), "").
Proof.
  etransitivity.
  - apply (unmatched_mark_discards_what_precedes Sample.encode "abc"
             [Sample.bold] [Sample.italic] Sample.underline "").
    reflexivity.
  - reflexivity.
Defined.

Lemma deserialize_only_rule_changes_nothing :
  serialize Sample.List_toString
    (new_Markdown Sample.encode [MoreSamples.deserialize_only]) Sample.hello ""
  = (Returned ("hello" ++ nl), "").
Proof.
  etransitivity.
  - apply (proj2 (rules_without_serialize_change_nothing Sample.encode
                    Sample.List_toString [MoreSamples.deserialize_only]
                    ltac:(repeat constructor))).
  - reflexivity.
Defined.

Lemma bare_linkbar_aborts_the_document :
  serialize Sample.List_toString Sample.md
    [MoreSamples.paragraph "x"; MoreSamples.bare_linkbar;
     MoreSamples.paragraph "y"] ""
  = (Thrown TypeError, "").
Proof.
  apply (proj2 (error_aborts_the_rendering Sample.List_toString Sample.md
                  [MoreSamples.paragraph "x"] [MoreSamples.paragraph "y"]
                  MoreSamples.bare_linkbar "" "" ""
                  [Single (VStr (nl ++ "x" ++ nl))] TypeError));
    reflexivity.
Defined.

Lemma list_keeps_a_pending_header :
  snd (serializeNode Sample.md MoreSamples.bullet_list ParentDocument "|:---:")
  = "|:---:".
Proof.
  apply (only_table_family_touches_tableHeader Sample.encode
           MoreSamples.bullet_list ParentDocument "|:---:").
  reflexivity.
Defined.

Lemma described_linkbar_returns :
  exists (r : rendered) (h' : string),
    serializeNode Sample.md MoreSamples.described_linkbar ParentDocument ""
    = (Returned r, h').
Proof.
  apply (proj1 (proj1 (rendering_returns_when_the_encoder_gets_strings
                         Sample.encode Sample.List_toString)
                  MoreSamples.described_linkbar ParentDocument ""
                  eq_refl eq_refl)).
Defined.

Lemma bare_linkbar_raises :
  serializeNode Sample.md MoreSamples.bare_linkbar ParentDocument "|:---:"
  = (Thrown TypeError, "|:---:").
Proof.
  apply (proj1 (linkbar_needs_a_string_description Sample.encode ∅ []
                  ParentDocument "|:---:" "|:---:" [] eq_refl));
    reflexivity.
Defined.

Lemma one_bracket_group_deleted :
  strip_brackets "see [x] end" = "see  end".
Proof.
  etransitivity.
  - apply (proj1 (proj2 (strip_brackets_deletes_groups_only "see " "x" " end"
                           eq_refl))).
    reflexivity.
  - reflexivity.
Defined.

Lemma empty_paragraph_in_a_list_item :
  serializeNode Sample.md (Block "paragraph" ∅ []) (ParentNode "list-item") ""
  = (Returned (Single VUndef), "")
  /\ serializeNode Sample.md (Block "paragraph" ∅ []) ParentDocument ""
     = (Returned (Single (VStr (nl ++ nl))), "").
Proof.
  split.
  - etransitivity.
    + apply (paragraph_wrapping_depends_on_parent Sample.encode ∅ []
               (ParentNode "list-item") "" "" []).
      reflexivity.
    + reflexivity.
  - etransitivity.
    + apply (paragraph_wrapping_depends_on_parent Sample.encode ∅ []
               ParentDocument "" "" []).
      reflexivity.
    + reflexivity.
Defined.

Lemma newline_in_a_list_item_gets_four_spaces :
  serializeNode Sample.md
    (Block "list-item" ∅ [Block "paragraph" ∅ [Sample.plain Sample.two_lines]])
    (ParentNode "bulleted-list") ""
  = (Returned (Single (VStr ("* a    " ++ nl ++ "b" ++ nl))), "").
Proof.
  etransitivity.
  - apply (list_item_paragraph_breaks_twice Sample.encode ∅ ∅
             [Sample.plain Sample.two_lines] (ParentNode "bulleted-list") "" ""
             [Leaves [VStr Sample.two_lines]]).
    reflexivity.
  - reflexivity.
Defined.

Lemma anonymous_mention :
  serializeNode Sample.md
    (Inline "mention" {[ "username" := VStr "bob"; "anonymous" := VBool true ]}
       [Sample.plain "ignored"])
    (ParentNode "paragraph") ""
  = (Returned (Single (VStr "!bob ")), "").
Proof.
  etransitivity.
  - apply (mention_needs_a_username Sample.encode
             {[ "username" := VStr "bob"; "anonymous" := VBool true ]}
             [Sample.plain "ignored"] (ParentNode "paragraph") "" ""
             [Leaves [VStr "ignored"]]).
    reflexivity.
  - reflexivity.
Defined.

Lemma link_with_padded_text :
  serializeNode Sample.md
    (Inline "link" {[ "href" := VStr "u" ]} [Sample.plain "  x "])
    (ParentNode "paragraph") ""
  = (Returned (Single (VStr "[x](u)")), "").
Proof.
  etransitivity.
  - apply (proj1 (link_text_is_trimmed Sample.encode {[ "href" := VStr "u" ]}
                    [Sample.plain "  x "] (ParentNode "paragraph") "" ""
                    [Leaves [VStr "  x "]] eq_refl)).
  - reflexivity.
Defined.

Lemma aside_block_renders_nothing :
  serializeNode Sample.md (Block "aside" ∅ [Sample.plain "lost"])
    ParentDocument ""
  = (Returned (Single VUndef), "").
Proof.
  apply (proj1 (unknown_types_render_nothing Sample.encode "aside" ∅
                  [Sample.plain "lost"] ParentDocument "" ""
                  [Leaves [VStr "lost"]] eq_refl));
    reflexivity.
Defined.

Lemma sample_text_table :
  serializeNode Sample.md
    (text_table ∅ ∅ [MoreSamples.left_head; MoreSamples.right_head]
       [MoreSamples.one_data_row])
    ParentDocument ""
  = (Returned
       (Single
          (VStr ("| col1 | col2 |" ++ nl
                 ++ "|:--- | ---:|" ++ nl
                 ++ "| a | b |" ++ nl))),
     "").
Proof.
  etransitivity.
  - apply (text_table_has_one_separator_line Sample.encode ∅ ∅
             [MoreSamples.left_head; MoreSamples.right_head]
             [MoreSamples.one_data_row] ParentDocument "").
    discriminate.
  - reflexivity.
Defined.
